(** * Firecode: batched traversal and batch migration

    A shallow embedding of the traversal and migration layer of the
    [packages/admin] package:

    - [createTraverser] / [createFastTraverser] (api/createTraverser.ts,
      api/createFastTraverser.ts),
    - the [BatchMigrator] class with its constructor, [withPredicate], [set]
      and [update] (api/interfaces/Migrator.ts, lines 379-665).

    Firestore itself is an external collaborator.  It is represented by the
    list of write batches it has committed so far, a counter of commit
    attempts and a function that decides which attempts succeed. *)

From Stdlib Require Import ZArith List String Lia.
From stdpp Require Import base option list gmap strings.
Import ListNotations.

Open Scope string_scope.
Open Scope list_scope.

(** ** Documents *)

(** Firestore field values, as far as the migration code looks at them. *)
#[warnings="-register-all"]
Inductive Value : Type :=
| VNull
| VBool (b : bool)
| VNum (n : Z)
| VStr (s : string)
| VFieldPath (segments : list string)
| VMap (fields : list (string * Value)).

(** [firestore.DocumentReference]: identified by its path. *)
Definition DocumentReference : Type := string.

(** [firestore.QueryDocumentSnapshot<D>]. *)
Record QueryDocumentSnapshot : Type := mkSnapshot {
  ref : DocumentReference;
  data : Value
}.

(** [snapshot.get(field)]: [None] stands for [undefined]. *)
Fixpoint assoc (field : string) (fields : list (string * Value)) : option Value :=
  match fields with
  | [] => None
  | (k, v) :: rest => if String.eqb k field then Some v else assoc field rest
  end.

Definition get (snapshot : QueryDocumentSnapshot) (field : string) : option Value :=
  match data snapshot with
  | VMap fields => assoc field fields
  | _ => None
  end.

(** A JavaScript argument of [set] / [update]: [undefined], a plain value
    or a function of the document snapshot ([SetDataGetter],
    [UpdateDataGetter]). *)
Inductive Js : Type :=
| Undefined
| Val (v : Value)
| Fun (f : QueryDocumentSnapshot -> Value).

(** [a !== undefined] *)
Definition is_defined (a : Js) : bool :=
  match a with Undefined => false | _ => true end.

Record SetOptions : Type := mkSetOptions {
  merge : option bool;
  mergeFields : option (list string)
}.

(** The calls recorded by a [firestore.WriteBatch]:
    [writeBatch.set(ref, data)], [writeBatch.set(ref, data, options)],
    [writeBatch.update(ref, data)], [writeBatch.update(ref, field, value)]. *)
Inductive WriteOp : Type :=
| OpSet (r : DocumentReference) (d : Js) (options : option SetOptions)
| OpUpdateData (r : DocumentReference) (d : Js)
| OpUpdateField (r : DocumentReference) (field value : Js).

Definition WriteBatch : Type := list WriteOp.

(** ** Errors, events and the state monad *)

Inductive Error : Type :=
| ConfigurationError
| FetchError
| CallbackError
| CommitError.

(** [OutOfFuel] is not a JavaScript outcome: it marks a traversal loop that
    was cut off by its recursion bound.  [traverse_never_out_of_fuel] shows
    that [traverse] does not produce it. *)
Inductive Outcome (A : Type) : Type :=
| Ok (a : A)
| Throw (e : Error)
| OutOfFuel.
Arguments Ok {A} a.
Arguments Throw {A} e.
Arguments OutOfFuel {A}.

(** [BatchCallback<D>]: a synchronous hook.  A hook is identified by its
    name; calling it leaves an [EvHook] event in the trace. *)
Definition BatchCallback : Type := string.

Inductive HookOwner : Type := OfTraverser | OfMigrator.
Inductive HookPoint : Type := BeforeBatchStart | AfterBatchComplete.

Inductive Event : Type :=
| EvHook (owner : HookOwner) (point : HookPoint) (callback : BatchCallback)
         (snapshots : list QueryDocumentSnapshot) (batchIndex : nat)
| EvWrite (op : WriteOp)
| EvCommit (ops : WriteBatch) (ok : bool).

(** The state the code runs against.
    - [committed]: the write batches Firestore has applied, oldest first;
    - [attempts]: how many times [writeBatch.commit()] has been called;
    - [commitOutcome n]: whether the [n]-th commit attempt succeeds
      (the environment's choice);
    - [trace]: hook calls, write-batch calls and commits, in program order;
    - [migratedDocCount]: the local variable of the running [set] /
      [update] call that its batch callback closes over. *)
Record State : Type := mkState {
  committed : list WriteBatch;
  attempts : nat;
  commitOutcome : nat -> bool;
  trace : list Event;
  migratedDocCount : nat
}.

Definition M (A : Type) : Type := State -> Outcome A * State.

Definition ret {A : Type} (a : A) : M A := fun st => (Ok a, st).

Definition throw {A : Type} (e : Error) : M A := fun st => (Throw e, st).

Definition bind {A B : Type} (c : M A) (k : A -> M B) : M B :=
  fun st =>
    match c st with
    | (Ok a, st') => k a st'
    | (Throw e, st') => (Throw e, st')
    | (OutOfFuel, st') => (OutOfFuel, st')
    end.

Notation "'let*' x ':=' c 'in' k" := (bind c (fun x => k))
  (at level 10, x pattern, c at level 100, k at level 200).

Definition tell (ev : Event) : M unit :=
  fun st =>
    (Ok tt, mkState (committed st) (attempts st) (commitOutcome st)
                    (trace st ++ [ev]) (migratedDocCount st)).

Definition get_migratedDocCount : M nat :=
  fun st => (Ok (migratedDocCount st), st).

Definition put_migratedDocCount (n : nat) : M unit :=
  fun st =>
    (Ok tt, mkState (committed st) (attempts st) (commitOutcome st) (trace st) n).

(** Modelled from the spec: [await writeBatch.commit()] is Firestore's,
    [commitBatchWrite(...) -> success | failure], atomic within the call
    (section 6).  A successful commit applies the whole write batch, a
    failed one applies nothing and rejects with a [CommitError]. *)
Definition commit (writeBatch : WriteBatch) : M unit :=
  fun st =>
    let ok := commitOutcome st (attempts st) in
    if ok then
      (Ok tt, mkState (committed st ++ [writeBatch]) (S (attempts st))
                      (commitOutcome st)
                      (trace st ++ [EvCommit writeBatch true])
                      (migratedDocCount st))
    else
      (Throw CommitError, mkState (committed st) (S (attempts st))
                                  (commitOutcome st)
                                  (trace st ++ [EvCommit writeBatch false])
                                  (migratedDocCount st)).

(** [hook?.(snapshots, batchIndex)] *)
Definition runHook (owner : HookOwner) (point : HookPoint)
    (hook : option BatchCallback)
    (snapshots : list QueryDocumentSnapshot) (batchIndex : nat) : M unit :=
  match hook with
  | Some callback => tell (EvHook owner point callback snapshots batchIndex)
  | None => ret tt
  end.

(** ** Traversal configuration *)

(** Modelled from the spec: the configuration types are not part of the
    sources.  One record stands for [TraversalConfig] and
    [FastTraversalConfig]; [maxConcurrentBatchCount] is read by the
    concurrent traverser only, and [maxDocCount = None] is the unbounded
    traversal. *)
Record TraversalConfig : Type := mkConfig {
  batchSize : Z;
  delayBetweenBatchesMs : Z;
  maxDocCount : option Z;
  maxConcurrentBatchCount : Z
}.

(** Modelled from the spec: [validateConfig] ('./validateConfig') is not
    part of the sources.  It rejects a non-positive batch size, a
    non-positive concurrency and a negative delay with a configuration
    error. *)
Definition validateConfig (config : TraversalConfig) : Outcome unit :=
  if (batchSize config <=? 0)%Z
     || (maxConcurrentBatchCount config <=? 0)%Z
     || (delayBetweenBatchesMs config <? 0)%Z
  then Throw ConfigurationError
  else Ok tt.

(** ** Traversers *)

Definition Traversable : Type := list QueryDocumentSnapshot.

Definition ExitEarlyPredicate : Type := list QueryDocumentSnapshot -> nat -> bool.

Definition BatchCallbackAsync : Type := list QueryDocumentSnapshot -> nat -> M unit.

(** Modelled from the spec: the type of [registeredCallbacks] is not part of
    the sources.  There is a single optional slot per hook point, and it is
    empty until a hook is registered. *)
Record RegisteredCallbacks : Type := mkCallbacks {
  onBeforeBatchStart : option BatchCallback;
  onAfterBatchComplete : option BatchCallback
}.

Definition noCallbacks : RegisteredCallbacks := mkCallbacks None None.

(** A traverser: the traversable, the exit-early predicates (the list that
    [createTraverser] and [createFastTraverser] pass as [[]]), the
    configuration that [BatchMigrator] reads as [traverser.traversalConfig],
    and the traverser's own hooks. *)
Record Traverser : Type := mkTraverser {
  traversable : Traversable;
  exitEarlyPredicates : list ExitEarlyPredicate;
  traversalConfig : TraversalConfig;
  traverserCallbacks : RegisteredCallbacks
}.

Module TraversalResult.
Record t : Type := mk { batchCount : nat; docCount : nat }.
End TraversalResult.

(** Modelled from the spec: the constructor of
    [BasicSlowTraverserImplementation] is not part of the sources.  The
    configuration is validated once, when the traverser is constructed. *)
Definition new_Traverser (traversable : Traversable)
    (exitEarlyPredicates : list ExitEarlyPredicate)
    (config : TraversalConfig) : Outcome Traverser :=
  match validateConfig config with
  | Ok _ => Ok (mkTraverser traversable exitEarlyPredicates config noCallbacks)
  | Throw e => Throw e
  | OutOfFuel => OutOfFuel
  end.

(** api/createTraverser.ts:
    [return new BasicSlowTraverserImplementation(traversable, [], config)].
    The merge of the partial configuration with the defaults is taken as
    done by the caller. *)
Definition createTraverser (traversable : Traversable)
    (config : TraversalConfig) : Outcome Traverser :=
  new_Traverser traversable [] config.

(** api/createFastTraverser.ts:
    [return new PromiseQueueBasedFastTraverserImplementation(traversable, [], config)]. *)
Definition createFastTraverser (traversable : Traversable)
    (config : TraversalConfig) : Outcome Traverser :=
  new_Traverser traversable [] config.

(** Modelled from the spec: the cursor marks the last record of the
    previous page; it is that record's position in the collection. *)
Definition Cursor : Type := option nat.

Definition offset (cursor : Cursor) : nat :=
  match cursor with
  | None => 0
  | Some last => S last
  end.

(** Modelled from the spec: [fetchPage(cursor, limit)] is the traversable's
    (section 6): up to [limit] records strictly after the cursor, in
    collection order; the empty page signals exhaustion.  Fetching from the
    collection held in memory does not fail. *)
Definition fetchPage (collection : Traversable) (cursor : Cursor) (limit : Z)
    : list QueryDocumentSnapshot :=
  take (Z.to_nat limit) (drop (offset cursor) collection).

(** Modelled from the spec: the size of the next page is [batchSize], or
    what is left before [maxDocCount] when that is less (the scenario with
    [maxDocCount = 5] and [batchSize = 3] ends after two batches with at
    most five records). *)
Definition pageLimit (config : TraversalConfig) (docCount : nat) : Z :=
  match maxDocCount config with
  | None => batchSize config
  | Some limit => Z.min (batchSize config) (limit - Z.of_nat docCount)
  end.

(** [docCount >= maxDocCount] *)
Definition reachedMaxDocCount (config : TraversalConfig) (docCount : nat) : bool :=
  match maxDocCount config with
  | None => false
  | Some limit => (limit <=? Z.of_nat docCount)%Z
  end.

(** The early-exit signal: some exit-early predicate of the traverser
    accepts the batch. *)
Definition shouldExitEarly (t : Traverser)
    (batch : list QueryDocumentSnapshot) (batchIndex : nat) : bool :=
  existsb (fun predicate => predicate batch batchIndex) (exitEarlyPredicates t).

(** Modelled from the spec: the sequential traverser's [traverse]
    (section 4.1), whose implementation is not part of the sources.
    Fetching, Invoking, Advancing, Done.  The pause between batches changes
    nothing in the state and is left out. *)
Fixpoint traverse_loop (fuel : nat) (t : Traverser) (callback : BatchCallbackAsync)
    (cursor : Cursor) (batchIndex docCount : nat) : M TraversalResult.t :=
  match fuel with
  | O => fun st => (OutOfFuel, st)
  | S fuel' =>
    let batch := fetchPage (traversable t) cursor
                   (pageLimit (traversalConfig t) docCount) in
    match batch with
    | [] => ret (TraversalResult.mk batchIndex docCount)
    | _ :: _ =>
      let* _ := runHook OfTraverser BeforeBatchStart
                  (onBeforeBatchStart (traverserCallbacks t)) batch batchIndex in
      let* _ := callback batch batchIndex in
      let* _ := runHook OfTraverser AfterBatchComplete
                  (onAfterBatchComplete (traverserCallbacks t)) batch batchIndex in
      let cursor' := Some (offset cursor + length batch - 1) in
      let batchIndex' := S batchIndex in
      let docCount' := docCount + length batch in
      if reachedMaxDocCount (traversalConfig t) docCount'
         || shouldExitEarly t batch batchIndex
      then ret (TraversalResult.mk batchIndex' docCount')
      else traverse_loop fuel' t callback cursor' batchIndex' docCount'
    end
  end.

Definition traverse (t : Traverser) (callback : BatchCallbackAsync)
    : M TraversalResult.t :=
  traverse_loop (S (length (traversable t))) t callback None 0 0.

(** ** The batch migrator *)

Definition MigrationPredicate : Type := QueryDocumentSnapshot -> bool.

Module MigrationResult.
Record t : Type := mk {
  batchCount : nat;
  traversedDocCount : nat;
  migratedDocCount : nat
}.
End MigrationResult.

(** An instance of [class BatchMigrator]: the constructor's parameter
    properties [traverser] and [migrationPredicate], and
    [registeredCallbacks], the field inherited from the abstract class
    [Migrator] that [set] reads. *)
Record BatchMigrator : Type := mkBatchMigrator {
  traverser : Traverser;
  migrationPredicate : MigrationPredicate;
  registeredCallbacks : RegisteredCallbacks
}.

(** Instances live in a heap: [onBeforeBatchStart] and
    [onAfterBatchComplete] update an instance in place, [new] allocates. *)
Definition loc : Type := positive.

Definition alloc (h : gmap loc BatchMigrator) : loc := fresh (dom h).

(** [constructor(traverser, migrationPredicate = () => true)]:
    [super(); validateConfig(traverser.traversalConfig);] *)
Definition new_BatchMigrator (traverser : Traverser)
    (migrationPredicate : option MigrationPredicate)
    (h : gmap loc BatchMigrator) : Outcome (loc * gmap loc BatchMigrator) :=
  let predicate :=
    match migrationPredicate with
    | Some p => p
    | None => fun _ => true
    end in
  let this := mkBatchMigrator traverser predicate noCallbacks in
  match validateConfig (traversalConfig traverser) with
  | Ok _ => Ok (alloc h, <[alloc h := this]> h)
  | Throw e => Throw e
  | OutOfFuel => OutOfFuel
  end.

(** [withPredicate(predicate)]:
    [return new BatchMigrator(this.traverser, predicate);] *)
Definition withPredicate (this : BatchMigrator) (predicate : MigrationPredicate)
    (h : gmap loc BatchMigrator) : Outcome (loc * gmap loc BatchMigrator) :=
  new_BatchMigrator (traverser this) (Some predicate) h.

(** Modelled from the spec: hook registration lives in the abstract class
    [Migrator], which is not part of the sources.  At most one hook per
    point; registering again replaces the previous one. *)
Definition register_onBeforeBatchStart (this : loc) (callback : BatchCallback)
    (h : gmap loc BatchMigrator) : gmap loc BatchMigrator :=
  alter (fun m => mkBatchMigrator (traverser m) (migrationPredicate m)
                    (mkCallbacks (Some callback)
                       (onAfterBatchComplete (registeredCallbacks m)))) this h.

(** Modelled from the spec: as [register_onBeforeBatchStart], for the
    after-batch hook. *)
Definition register_onAfterBatchComplete (this : loc) (callback : BatchCallback)
    (h : gmap loc BatchMigrator) : gmap loc BatchMigrator :=
  alter (fun m => mkBatchMigrator (traverser m) (migrationPredicate m)
                    (mkCallbacks (onBeforeBatchStart (registeredCallbacks m))
                       (Some callback))) this h.

(** [writeBatch.set(...)] / [writeBatch.update(...)]: the call is appended
    to the write batch. *)
Definition writeBatch_add (writeBatch : WriteBatch) (op : WriteOp) : M WriteBatch :=
  let* _ := tell (EvWrite op) in
  ret (writeBatch ++ [op]).

(** [snapshots.forEach(body)] with the local variables [writeBatch] and
    [migratableDocCount] of the enclosing callback. *)
Fixpoint forEach (body : WriteBatch * nat -> QueryDocumentSnapshot -> M (WriteBatch * nat))
    (snapshots : list QueryDocumentSnapshot) (locals : WriteBatch * nat)
    : M (WriteBatch * nat) :=
  match snapshots with
  | [] => ret locals
  | snapshot :: rest =>
    let* locals' := body locals snapshot in
    forEach body rest locals'
  end.

(** The body of [snapshots.forEach] in [set]. *)
Definition set_body (this : BatchMigrator) (dataOrGetData : Js)
    (options : option SetOptions)
    (locals : WriteBatch * nat) (snapshot : QueryDocumentSnapshot)
    : M (WriteBatch * nat) :=
  let '(writeBatch, migratableDocCount) := locals in
  let shouldMigrate := migrationPredicate this snapshot in
  if negb shouldMigrate then ret (writeBatch, migratableDocCount)
  else
    let migratableDocCount := S migratableDocCount in
    match dataOrGetData with
    | Fun getData =>
      (* typeof dataOrGetData === 'function' *)
      match options with
      | None =>
        (* Signature 1 *)
        let data := getData snapshot in
        let* writeBatch := writeBatch_add writeBatch
                             (OpSet (ref snapshot) (Val data) None) in
        ret (writeBatch, migratableDocCount)
      | Some options =>
        (* Signature 2 *)
        let data := getData snapshot in
        let* writeBatch := writeBatch_add writeBatch
                             (OpSet (ref snapshot) (Val data) (Some options)) in
        ret (writeBatch, migratableDocCount)
      end
    | data =>
      match options with
      | None =>
        (* Signature 3 *)
        let* writeBatch := writeBatch_add writeBatch
                             (OpSet (ref snapshot) data None) in
        ret (writeBatch, migratableDocCount)
      | Some options =>
        (* Signature 4 *)
        let* writeBatch := writeBatch_add writeBatch
                             (OpSet (ref snapshot) data (Some options)) in
        ret (writeBatch, migratableDocCount)
      end
    end.

(** The batch callback that [set] hands to [traverser.traverse]. *)
Definition set_callback (this : BatchMigrator) (dataOrGetData : Js)
    (options : option SetOptions) : BatchCallbackAsync :=
  fun snapshots batchIndex =>
    let* _ := runHook OfMigrator BeforeBatchStart
                (onBeforeBatchStart (registeredCallbacks this)) snapshots batchIndex in
    let* (writeBatch, migratableDocCount) :=
      forEach (set_body this dataOrGetData options) snapshots ([], 0) in
    let* _ := commit writeBatch in
    let* migratedDocCount := get_migratedDocCount in
    let* _ := put_migratedDocCount (migratedDocCount + migratableDocCount) in
    runHook OfMigrator AfterBatchComplete
      (onAfterBatchComplete (registeredCallbacks this)) snapshots batchIndex.

(** [BatchMigrator.set(dataOrGetData, options?)] *)
Definition set (this : BatchMigrator) (dataOrGetData : Js)
    (options : option SetOptions) : M MigrationResult.t :=
  let* _ := put_migratedDocCount 0 in
  let* result := traverse (traverser this) (set_callback this dataOrGetData options) in
  let* migratedDocCount := get_migratedDocCount in
  ret (MigrationResult.mk (TraversalResult.batchCount result)
         (TraversalResult.docCount result) migratedDocCount).

(** [[arg1, arg2].filter((a) => a !== undefined).length] *)
Definition argCount (arg1 arg2 : Js) : nat :=
  length (List.filter is_defined [arg1; arg2]).

(** The body of [snapshots.forEach] in [update]; [count] is the [argCount]
    that [update] computes before it traverses. *)
Definition update_body (this : BatchMigrator) (arg1 arg2 : Js) (count : nat)
    (locals : WriteBatch * nat) (snapshot : QueryDocumentSnapshot)
    : M (WriteBatch * nat) :=
  let '(writeBatch, migratableDocCount) := locals in
  match arg1 with
  | Fun getUpdateData =>
    (* typeof arg1 === 'function': Signature 1 *)
    let shouldMigrate := migrationPredicate this snapshot in
    if shouldMigrate then
      let* writeBatch := writeBatch_add writeBatch
                           (OpUpdateData (ref snapshot)
                              (Val (getUpdateData snapshot))) in
      ret (writeBatch, S migratableDocCount)
    else ret (writeBatch, migratableDocCount)
  | _ =>
    if Nat.eqb count 1 then
      (* Signature 2 *)
      let updateData := arg1 in
      let shouldMigrate := migrationPredicate this snapshot in
      if shouldMigrate then
        let* writeBatch := writeBatch_add writeBatch
                             (OpUpdateData (ref snapshot) updateData) in
        ret (writeBatch, S migratableDocCount)
      else ret (writeBatch, migratableDocCount)
    else
      (* Signature 3 *)
      let field := arg1 in
      let value := arg2 in
      let shouldMigrate := migrationPredicate this snapshot in
      if shouldMigrate then
        let* writeBatch := writeBatch_add writeBatch
                             (OpUpdateField (ref snapshot) field value) in
        ret (writeBatch, S migratableDocCount)
      else ret (writeBatch, migratableDocCount)
  end.

(** The batch callback that [update] hands to [traverser.traverse]. *)
Definition update_callback (this : BatchMigrator) (arg1 arg2 : Js) (count : nat)
    : BatchCallbackAsync :=
  fun snapshots _ =>
    let* (writeBatch, migratableDocCount) :=
      forEach (update_body this arg1 arg2 count) snapshots ([], 0) in
    let* _ := commit writeBatch in
    let* migratedDocCount := get_migratedDocCount in
    put_migratedDocCount (migratedDocCount + migratableDocCount).

(** [BatchMigrator.update(arg1, arg2?)] *)
Definition update (this : BatchMigrator) (arg1 arg2 : Js) : M MigrationResult.t :=
  let count := argCount arg1 arg2 in
  let* _ := put_migratedDocCount 0 in
  let* result := traverse (traverser this)
                   (update_callback this arg1 arg2 count) in
  let* migratedDocCount := get_migratedDocCount in
  ret (MigrationResult.mk (TraversalResult.batchCount result)
         (TraversalResult.docCount result) migratedDocCount).

(** ** Calls of [validateConfig] *)









(** ** The concurrent traverser *)

(** Modelled from the spec: the scheduling state of a concurrent traversal
    (section 4.2): the cursor, the number
    of units admitted so far, the number of records they hold, the units
    whose callback has not settled yet, the units whose callback has
    resolved, whether further units may be admitted, and the first failure
    observed. *)
Record FastState : Type := mkFast {
  fastCursor : Cursor;
  enqueuedBatchCount : nat;
  enqueuedDocCount : nat;
  inFlight : list (nat * list QueryDocumentSnapshot);
  resolved : list (nat * list QueryDocumentSnapshot);
  accepting : bool;
  failure : option Error
}.

Definition fast_init : FastState := mkFast None 0 0 [] [] true None.

(** Modelled from the spec: the concurrent traverser's scheduling loop
    (section 4.2), whose implementation is not part of the sources.
    Pages are fetched one at a time in collection order, a unit is admitted
    only below the concurrency ceiling, and callbacks settle in any order. *)
Inductive fast_step (t : Traverser) : FastState -> FastState -> Prop :=
| fast_enqueue s batch :
    accepting s = true ->
    (Z.of_nat (length (inFlight s)) < maxConcurrentBatchCount (traversalConfig t))%Z ->
    reachedMaxDocCount (traversalConfig t) (enqueuedDocCount s) = false ->
    batch = fetchPage (traversable t) (fastCursor s)
              (pageLimit (traversalConfig t) (enqueuedDocCount s)) ->
    batch <> [] ->
    fast_step t s
      (mkFast (Some (offset (fastCursor s) + length batch - 1))
              (S (enqueuedBatchCount s))
              (enqueuedDocCount s + length batch)
              (inFlight s ++ [(enqueuedBatchCount s, batch)])
              (resolved s)
              (Nat.leb (Z.to_nat (batchSize (traversalConfig t))) (length batch))
              (failure s))
| fast_exhausted s :
    accepting s = true ->
    (Z.of_nat (length (inFlight s)) < maxConcurrentBatchCount (traversalConfig t))%Z ->
    reachedMaxDocCount (traversalConfig t) (enqueuedDocCount s) = false ->
    fetchPage (traversable t) (fastCursor s)
      (pageLimit (traversalConfig t) (enqueuedDocCount s)) = [] ->
    fast_step t s
      (mkFast (fastCursor s) (enqueuedBatchCount s) (enqueuedDocCount s)
              (inFlight s) (resolved s) false (failure s))
| fast_limit s :
    accepting s = true ->
    reachedMaxDocCount (traversalConfig t) (enqueuedDocCount s) = true ->
    fast_step t s
      (mkFast (fastCursor s) (enqueuedBatchCount s) (enqueuedDocCount s)
              (inFlight s) (resolved s) false (failure s))
| fast_resolve s before batchIndex batch after :
    inFlight s = before ++ (batchIndex, batch) :: after ->
    fast_step t s
      (mkFast (fastCursor s) (enqueuedBatchCount s) (enqueuedDocCount s)
              (before ++ after)
              (resolved s ++ [(batchIndex, batch)])
              (accepting s && negb (shouldExitEarly t batch batchIndex))
              (failure s))
| fast_reject s before batchIndex batch after e :
    inFlight s = before ++ (batchIndex, batch) :: after ->
    fast_step t s
      (mkFast (fastCursor s) (enqueuedBatchCount s) (enqueuedDocCount s)
              (before ++ after)
              (resolved s)
              (accepting s)
              (match failure s with Some first => Some first | None => Some e end)).

(** Modelled from the spec: the traversal is over once nothing more is
    admitted and every admitted unit has settled; its result is the first
    failure, if any. *)
Definition fast_result (s : FastState) : option (Outcome TraversalResult.t) :=
  if accepting s then None
  else
    match inFlight s with
    | _ :: _ => None
    | [] =>
      match failure s with
      | Some e => Some (Throw e)
      | None => Some (Ok (TraversalResult.mk (enqueuedBatchCount s) (enqueuedDocCount s)))
      end
    end.

(** ** Batches of a collection *)

Definition ceilDiv (n b : nat) : nat := (n + b - 1) / b.

(** The [k]-th window of [b] records. *)
Definition slice {A : Type} (b : nat) (l : list A) (k : nat) : list A :=
  take b (drop (k * b) l).

Definition batchesOf {A : Type} (b : nat) (l : list A) : list (list A) :=
  map (slice b l) (seq 0 (ceilDiv (length l) b)).

(** The batches the sequential traversal fetches and hands on, in order;
    it follows the control flow of [traverse_loop]. *)
Fixpoint pages_loop (fuel : nat) (t : Traverser)
    (cursor : Cursor) (batchIndex docCount : nat)
    : list (list QueryDocumentSnapshot) :=
  match fuel with
  | O => []
  | S fuel' =>
    let batch := fetchPage (traversable t) cursor
                   (pageLimit (traversalConfig t) docCount) in
    match batch with
    | [] => []
    | _ :: _ =>
      batch ::
        (if reachedMaxDocCount (traversalConfig t) (docCount + length batch)
            || shouldExitEarly t batch batchIndex
         then []
         else pages_loop fuel' t (Some (offset cursor + length batch - 1))
                (S batchIndex) (docCount + length batch))
    end
  end.

Definition pages (t : Traverser) : list (list QueryDocumentSnapshot) :=
  pages_loop (S (length (traversable t))) t None 0 0.

(** Calling the traverser's hooks and the batch callback on each of the
    given batches in turn, stopping at the first failure. *)
Fixpoint invoke_batches (t : Traverser) (callback : BatchCallbackAsync)
    (batches : list (list QueryDocumentSnapshot)) (batchIndex docCount : nat)
    : M TraversalResult.t :=
  match batches with
  | [] => ret (TraversalResult.mk batchIndex docCount)
  | batch :: rest =>
    let* _ := runHook OfTraverser BeforeBatchStart
                (onBeforeBatchStart (traverserCallbacks t)) batch batchIndex in
    let* _ := callback batch batchIndex in
    let* _ := runHook OfTraverser AfterBatchComplete
                (onAfterBatchComplete (traverserCallbacks t)) batch batchIndex in
    invoke_batches t callback rest (S batchIndex) (docCount + length batch)
  end.

(** Pairs each batch with its 0-based index. *)
Definition indexed {A : Type} (batches : list A) : list (nat * A) :=
  imap (fun k b => (k, b)) batches.

(** What holds of every scheduling state of a concurrent traversal that has
    no document limit and no exit-early predicate: the units admitted so
    far are the first windows of the collection, and as long as no callback
    has failed each of them is either in flight or resolved. *)
Definition fast_inv (t : Traverser) (s : FastState) : Prop :=
  let b := Z.to_nat (batchSize (traversalConfig t)) in
  let l := traversable t in
  let n := enqueuedBatchCount s in
  n <= ceilDiv (length l) b
  /\ offset (fastCursor s) = Nat.min (n * b) (length l)
  /\ enqueuedDocCount s = Nat.min (n * b) (length l)
  /\ (accepting s = false -> n = ceilDiv (length l) b)
  /\ (failure s = None ->
      Permutation (resolved s ++ inFlight s) (indexed (take n (batchesOf b l)))).

(** ** What a migration leaves behind *)

(** Appending events to the trace. *)
Definition log (events : list Event) (st : State) : State :=
  mkState (committed st) (attempts st) (commitOutcome st)
          (trace st ++ events) (migratedDocCount st).

Definition hookEvents (owner : HookOwner) (point : HookPoint)
    (hook : option BatchCallback)
    (snapshots : list QueryDocumentSnapshot) (batchIndex : nat) : list Event :=
  match hook with
  | Some callback => [EvHook owner point callback snapshots batchIndex]
  | None => []
  end.

(** The documents of a batch that the migrator's predicate accepts. *)
Definition migratable (this : BatchMigrator)
    (snapshots : list QueryDocumentSnapshot) : list QueryDocumentSnapshot :=
  List.filter (migrationPredicate this) snapshots.

(** The write that [set] adds for a document it migrates, by signature. *)
Definition set_write (dataOrGetData : Js) (options : option SetOptions)
    (snapshot : QueryDocumentSnapshot) : WriteOp :=
  match dataOrGetData with
  | Fun getData => OpSet (ref snapshot) (Val (getData snapshot)) options
  | data => OpSet (ref snapshot) data options
  end.

(** The write that [update] adds for a document it migrates, by signature. *)
Definition update_write (arg1 arg2 : Js) (snapshot : QueryDocumentSnapshot)
    : WriteOp :=
  match arg1 with
  | Fun getUpdateData => OpUpdateData (ref snapshot) (Val (getUpdateData snapshot))
  | _ =>
    if Nat.eqb (argCount arg1 arg2) 1
    then OpUpdateData (ref snapshot) arg1
    else OpUpdateField (ref snapshot) arg1 arg2
  end.

(** The write batch [set] / [update] builds for a batch of snapshots. *)
Definition set_ops (this : BatchMigrator) (dataOrGetData : Js)
    (options : option SetOptions)
    (snapshots : list QueryDocumentSnapshot) : WriteBatch :=
  map (set_write dataOrGetData options) (migratable this snapshots).

Definition update_ops (this : BatchMigrator) (arg1 arg2 : Js)
    (snapshots : list QueryDocumentSnapshot) : WriteBatch :=
  map (update_write arg1 arg2) (migratable this snapshots).

(** The document a write is addressed to. *)
Definition target (op : WriteOp) : DocumentReference :=
  match op with
  | OpSet r _ _ => r
  | OpUpdateData r _ => r
  | OpUpdateField r _ _ => r
  end.

(** A batch callback that commits exactly one write batch, [opsOf snapshots],
    and adds its size to [migratedDocCount] once the commit has resolved. *)
Definition commits_batch (callback : BatchCallbackAsync)
    (opsOf : list QueryDocumentSnapshot -> WriteBatch) : Prop :=
  forall snapshots batchIndex st,
    exists st',
      commitOutcome st' = commitOutcome st
      /\ attempts st' = S (attempts st)
      /\ if commitOutcome st (attempts st)
         then callback snapshots batchIndex st = (Ok tt, st')
              /\ committed st' = committed st ++ [opsOf snapshots]
              /\ migratedDocCount st'
                 = migratedDocCount st + length (opsOf snapshots)
         else callback snapshots batchIndex st = (Throw CommitError, st')
              /\ committed st' = committed st
              /\ migratedDocCount st' = migratedDocCount st.

(** The frame that [set] and [update] share around their batch callback:
    reset the counter, traverse, assemble the migration result. *)
Definition runMigration (t : Traverser) (callback : BatchCallbackAsync)
    : M MigrationResult.t :=
  let* _ := put_migratedDocCount 0 in
  let* result := traverse t callback in
  let* migratedDocCount := get_migratedDocCount in
  ret (MigrationResult.mk (TraversalResult.batchCount result)
         (TraversalResult.docCount result) migratedDocCount).

(** ** Example data *)

Definition exampleDoc (i : nat) : QueryDocumentSnapshot :=
  mkSnapshot (String (Ascii.ascii_of_nat (48 + i)) EmptyString)
    (VMap [("status", VStr (if Nat.even i then "pending" else "done"))]).

(** Ten documents, "0" to "9"; the even ones are pending. *)
Definition exampleCollection : Traversable := map exampleDoc (seq 0 10).

Definition exampleConfig : TraversalConfig := mkConfig 3 0 None 10.

Definition exampleTraverser : Traverser :=
  mkTraverser exampleCollection [] exampleConfig noCallbacks.

Definition isPending : MigrationPredicate :=
  fun snapshot =>
    match get snapshot "status" with
    | Some (VStr status) => String.eqb status "pending"
    | _ => false
    end.

Definition initialState (outcome : nat -> bool) : State :=
  mkState [] 0 outcome [] 0.

(** The same traverser with at most five documents to visit. *)
Definition limitedTraverser : Traverser :=
  mkTraverser exampleCollection [] (mkConfig 3 0 (Some 5%Z) 10) noCallbacks.

(** A migrator for the pending documents, with both hooks registered. *)
Definition exampleMigrator : BatchMigrator :=
  mkBatchMigrator exampleTraverser isPending
    (mkCallbacks (Some "before") (Some "after")).

(** Five documents, "1" to "5"; two of them are pending. *)
Definition exampleBatch : list QueryDocumentSnapshot := map exampleDoc (seq 1 5).

(** Every commit succeeds. *)
Definition allCommit : nat -> bool := fun _ => true.

(** Every commit succeeds except attempt number [k]. *)
Definition failAt (k : nat) : nat -> bool := fun n => negb (Nat.eqb n k).

Definition isMigratorHook (ev : Event) : bool :=
  match ev with
  | EvHook OfMigrator _ _ _ _ => true
  | _ => false
  end.

Definition rejectAll : MigrationPredicate := fun _ => false.

Definition acceptAll : MigrationPredicate := fun _ => true.

(** A heap that holds [exampleMigrator] and nothing else. *)
Definition exampleHeap : gmap loc BatchMigrator := {[ 1%positive := exampleMigrator ]}.

(** A batch callback that does nothing and resolves. *)
Definition idleCallback : BatchCallbackAsync := fun _ _ => ret tt.


(** ** Populating a collection *)

(** The collection a [firestore.CollectionReference] points to, as
    [populateCollection] sees it: the documents added so far, each under its
    auto-generated id and in the order the calls were issued, the number of
    [add] calls made, and which of them succeed (the environment's
    choice). *)
Record CollectionReference : Type := mkCollection {
  documents : list (nat * Value);
  addAttempts : nat;
  addOutcome : nat -> bool
}.

(** [collectionRef.add(data)] is Firestore's.  A call that succeeds stores
    the data under a new id, here the number of the call, and its promise
    resolves to the reference of the new document; a call that fails stores
    nothing and its promise rejects ([None]). *)
Definition collection_add (data : Value) (c : CollectionReference)
    : option nat * CollectionReference :=
  let id := addAttempts c in
  if addOutcome c id
  then (Some id, mkCollection (documents c ++ [(id, data)]) (S id) (addOutcome c))
  else (None, mkCollection (documents c) (S id) (addOutcome c)).

(** [dataOrGetData: D | (() => D)].  A getter takes no argument and may
    return different data each time: [getData k] is what its call number
    [k] returns. *)
Inductive DataOrGetData : Type :=
| Literal (data : Value)
| Getter (getData : nat -> Value).

Inductive PopulateError : Type :=
| RangeError
| AddError.

Inductive Settled : Type :=
| Resolved (refs : list nat)
| Rejected (e : PopulateError).

(** [new Array(docCount).fill(null).map(async () => {...})]: the arrow
    function is called once per slot, in order; each call runs up to its
    [await], so it takes the data (calling the getter when there is one) and
    issues its [add].  [calls] counts the calls of the getter. *)
Fixpoint populate_promises (count : nat) (dataOrGetData : DataOrGetData)
    (calls : nat) (c : CollectionReference)
    : list (option nat) * nat * CollectionReference :=
  match count with
  | O => ([], calls, c)
  | S count' =>
    let '(data, calls1) :=
      match dataOrGetData with
      | Getter getData => (getData calls, S calls)
      | Literal data => (data, calls)
      end in
    let '(promise, c1) := collection_add data c in
    let '(promises, calls2, c2) :=
      populate_promises count' dataOrGetData calls1 c1 in
    (promise :: promises, calls2, c2)
  end.

(** [await Promise.all(promises)]: the references in order when every
    promise resolves, a rejection when one rejects. *)
Fixpoint promise_all (promises : list (option nat)) : option (list nat) :=
  match promises with
  | [] => Some []
  | Some r :: rest =>
    match promise_all rest with
    | Some refs => Some (r :: refs)
    | None => None
    end
  | None :: _ => None
  end.

(** [populateCollection(collectionRef, dataOrGetData, docCount)]
    (unnamed/part_000).  [new Array(docCount)] throws a [RangeError] for a
    negative length and for one above 2^32 - 1; inside the async function
    this rejects the returned promise.  The result comes with the number of
    getter calls and the collection once every issued [add] has settled. *)
Definition populateCollection (c : CollectionReference)
    (dataOrGetData : DataOrGetData) (docCount : Z)
    : Settled * nat * CollectionReference :=
  if ((docCount <? 0) || (2 ^ 32 - 1 <? docCount))%Z
  then (Rejected RangeError, 0, c)
  else
    let '(promises, calls, c') :=
      populate_promises (Z.to_nat docCount) dataOrGetData 0 c in
    match promise_all promises with
    | Some refs => (Resolved refs, calls, c')
    | None => (Rejected AddError, calls, c')
    end.

(** The data of the document that slot [j] adds. *)
Definition slotData (dataOrGetData : DataOrGetData) (j : nat) : Value :=
  match dataOrGetData with
  | Literal data => data
  | Getter getData => getData j
  end.

(** A collection with nothing in it yet. *)
Definition emptyCollection (outcome : nat -> bool) : CollectionReference :=
  mkCollection [] 0 outcome.

(** * Properties *)

(** ** Windows of a list *)

Lemma ceilDiv_lt (n b k : nat) : 0 < b -> k < ceilDiv n b <-> k * b < n.
Proof.
  intros Hb. unfold ceilDiv. split; intros H.
  - destruct (Nat.lt_ge_cases (k * b) n) as [|Hge]; [assumption|].
    exfalso. assert ((n + b - 1) / b < S k); [|lia].
    apply Nat.Div0.div_lt_upper_bound. nia.
  - assert (S k <= (n + b - 1) / b); [|lia].
    apply Nat.div_le_lower_bound; [lia|nia].
Qed.

Lemma ceilDiv_0 (b : nat) : 0 < b -> ceilDiv 0 b = 0.
Proof.
  intros Hb. destruct (ceilDiv 0 b) eqn:E; [reflexivity|].
  assert (H : 0 < ceilDiv 0 b) by lia.
  apply ceilDiv_lt in H; [lia|assumption].
Qed.

Lemma concat_slices {A : Type} (b : nat) (l : list A) (n : nat) :
  concat (map (slice b l) (seq 0 n)) = take (n * b) l.
Proof.
  induction n as [|n IH]; [reflexivity|].
  rewrite seq_S, map_app, concat_app, IH. simpl.
  rewrite app_nil_r. unfold slice.
  rewrite take_take_drop. f_equal. lia.
Qed.

Lemma concat_batchesOf {A : Type} (b : nat) (l : list A) :
  0 < b -> concat (batchesOf b l) = l.
Proof.
  intros Hb. unfold batchesOf. rewrite concat_slices.
  apply take_ge.
  destruct (Nat.lt_ge_cases (ceilDiv (length l) b * b) (length l)) as [Hlt|]; [|assumption].
  apply ceilDiv_lt in Hlt; [lia|assumption].
Qed.

Lemma length_batchesOf {A : Type} (b : nat) (l : list A) :
  length (batchesOf b l) = ceilDiv (length l) b.
Proof. unfold batchesOf. now rewrite length_map, length_seq. Qed.

Lemma batchesOf_lookup {A : Type} (b : nat) (l : list A) (k : nat) :
  k < ceilDiv (length l) b -> batchesOf b l !! k = Some (slice b l k).
Proof.
  intros Hk. unfold batchesOf.
  rewrite list_lookup_fmap, lookup_seq_lt by assumption. reflexivity.
Qed.

Lemma length_slice {A : Type} (b : nat) (l : list A) (k : nat) :
  length (slice b l k) = Nat.min b (length l - k * b).
Proof. unfold slice. now rewrite length_take, length_drop. Qed.

(** ** The sequential traversal *)

Lemma runHook_ok owner point hook snapshots batchIndex st :
  exists st', runHook owner point hook snapshots batchIndex st = (Ok tt, st')
    /\ committed st' = committed st
    /\ attempts st' = attempts st
    /\ commitOutcome st' = commitOutcome st
    /\ migratedDocCount st' = migratedDocCount st.
Proof.
  destruct hook; simpl; eexists; (split; [reflexivity|]); simpl; auto.
Qed.

Lemma fetchPage_cons t cursor limit x batch :
  fetchPage (traversable t) cursor limit = x :: batch ->
  offset cursor < length (traversable t).
Proof.
  unfold fetchPage. intros H.
  destruct (Nat.lt_ge_cases (offset cursor) (length (traversable t))) as [|Hge];
    [assumption|].
  rewrite (drop_ge _ _ Hge), take_nil in H. discriminate.
Qed.

(** The traversal loop hands exactly the batches of [pages_loop] to the
    callback, provided its recursion bound exceeds the number of records
    left. *)
Lemma traverse_loop_invoke fuel t callback :
  forall cursor batchIndex docCount st,
    length (traversable t) - offset cursor < fuel ->
    traverse_loop fuel t callback cursor batchIndex docCount st
    = invoke_batches t callback (pages_loop fuel t cursor batchIndex docCount)
        batchIndex docCount st.
Proof.
  induction fuel as [|fuel IH]; intros cursor batchIndex docCount st Hfuel; [lia|].
  simpl.
  destruct (fetchPage (traversable t) cursor
              (pageLimit (traversalConfig t) docCount))
    as [|x batch] eqn:Hpage; [reflexivity|].
  apply fetchPage_cons in Hpage.
  cbn [invoke_batches]. unfold bind.
  destruct (runHook OfTraverser BeforeBatchStart _ _ _ st) as [[[]|e|] st1];
    try reflexivity.
  destruct (callback (x :: batch) batchIndex st1) as [[[]|e|] st2]; try reflexivity.
  destruct (runHook OfTraverser AfterBatchComplete _ _ _ st2) as [[[]|e|] st3];
    try reflexivity.
  destruct (reachedMaxDocCount _ _ || shouldExitEarly _ _ _); [reflexivity|].
  apply IH. simpl. simpl in Hfuel. lia.
Qed.

Lemma traverse_invoke t callback st :
  traverse t callback st = invoke_batches t callback (pages t) 0 0 st.
Proof. unfold traverse, pages. apply traverse_loop_invoke. simpl. lia. Qed.

Lemma invoke_batches_never_out_of_fuel t callback :
  (forall batch batchIndex s, fst (callback batch batchIndex s) <> OutOfFuel) ->
  forall batches batchIndex docCount st,
    fst (invoke_batches t callback batches batchIndex docCount st) <> OutOfFuel.
Proof.
  intros Hcb. induction batches as [|batch rest IH]; intros batchIndex docCount st;
    [discriminate|].
  simpl. unfold bind.
  destruct (runHook_ok OfTraverser BeforeBatchStart
              (onBeforeBatchStart (traverserCallbacks t)) batch batchIndex st)
    as (st1 & -> & _).
  pose proof (Hcb batch batchIndex st1) as Hne.
  destruct (callback batch batchIndex st1) as [[[]|e|] st2]; simpl in *;
    [|discriminate|congruence].
  destruct (runHook_ok OfTraverser AfterBatchComplete
              (onAfterBatchComplete (traverserCallbacks t)) batch batchIndex st2)
    as (st3 & -> & _).
  apply IH.
Qed.

(** The recursion bound of [traverse] is never reached: a traversal ends out
    of fuel only if its callback does. *)
Lemma traverse_never_out_of_fuel t callback st :
  (forall batch batchIndex s, fst (callback batch batchIndex s) <> OutOfFuel) ->
  fst (traverse t callback st) <> OutOfFuel.
Proof.
  intros Hcb. rewrite traverse_invoke. now apply invoke_batches_never_out_of_fuel.
Qed.

(** Without a document limit and without exit-early predicates the
    traversal fetches the windows of [batchSize] records, one after the
    other. *)
Lemma pages_loop_unbounded t :
  maxDocCount (traversalConfig t) = None ->
  exitEarlyPredicates t = [] ->
  0 < Z.to_nat (batchSize (traversalConfig t)) ->
  forall fuel k cursor batchIndex docCount,
    offset cursor
      = Nat.min (k * Z.to_nat (batchSize (traversalConfig t))) (length (traversable t)) ->
    length (traversable t) - offset cursor < fuel ->
    pages_loop fuel t cursor batchIndex docCount
    = map (slice (Z.to_nat (batchSize (traversalConfig t))) (traversable t))
        (seq k (ceilDiv (length (traversable t))
                  (Z.to_nat (batchSize (traversalConfig t))) - k)).
Proof.
  intros Hmax Hexit Hb.
  set (b := Z.to_nat (batchSize (traversalConfig t))) in *.
  set (l := traversable t).
  induction fuel as [|fuel IH]; intros k cursor batchIndex docCount Hoff Hfuel; [lia|].
  simpl. unfold fetchPage, pageLimit. rewrite Hmax. fold b. fold l. rewrite Hoff.
  destruct (Nat.lt_ge_cases (k * b) (length l)) as [Hlt|Hge].
  - assert (Hk : k < ceilDiv (length l) b) by (apply ceilDiv_lt; assumption).
    replace (ceilDiv (length l) b - k) with (S (ceilDiv (length l) b - S k)) by lia.
    simpl. rewrite Nat.min_l by lia. fold (slice b l k).
    assert (Hlen : length (slice b l k) = Nat.min b (length l - k * b))
      by apply length_slice.
    destruct (slice b l k) as [|x batch] eqn:Hslice; [simpl in Hlen; lia|].
    f_equal.
    unfold reachedMaxDocCount, shouldExitEarly. rewrite Hmax, Hexit. simpl.
    apply IH; simpl in *; lia.
  - rewrite Nat.min_r by lia. rewrite drop_all, take_nil.
    assert (Hk : ~ k < ceilDiv (length l) b) by (rewrite ceilDiv_lt by assumption; lia).
    replace (ceilDiv (length l) b - k) with 0 by lia. reflexivity.
Qed.

Lemma pages_unbounded t :
  maxDocCount (traversalConfig t) = None ->
  exitEarlyPredicates t = [] ->
  0 < Z.to_nat (batchSize (traversalConfig t)) ->
  pages t = batchesOf (Z.to_nat (batchSize (traversalConfig t))) (traversable t).
Proof.
  intros Hmax Hexit Hb. unfold pages, batchesOf.
  rewrite (pages_loop_unbounded t Hmax Hexit Hb _ 0); simpl; [|lia..].
  now rewrite Nat.sub_0_r.
Qed.

(** A callback that resolves on every batch lets the traversal run to
    its end and count every batch and record it was given. *)
Lemma invoke_batches_ok t callback :
  (forall batch batchIndex st, exists st', callback batch batchIndex st = (Ok tt, st')) ->
  forall batches batchIndex docCount st,
    exists st',
      invoke_batches t callback batches batchIndex docCount st
      = (Ok (TraversalResult.mk (batchIndex + length batches)
               (docCount + length (concat batches))), st').
Proof.
  intros Hcb. induction batches as [|batch rest IH]; intros batchIndex docCount st.
  - exists st. simpl. unfold ret. now rewrite !Nat.add_0_r.
  - simpl. unfold bind.
    destruct (runHook_ok OfTraverser BeforeBatchStart
                (onBeforeBatchStart (traverserCallbacks t)) batch batchIndex st)
      as (st1 & -> & _).
    destruct (Hcb batch batchIndex st1) as (st2 & ->).
    destruct (runHook_ok OfTraverser AfterBatchComplete
                (onAfterBatchComplete (traverserCallbacks t)) batch batchIndex st2)
      as (st3 & -> & _).
    destruct (IH (S batchIndex) (docCount + length batch) st3) as (st4 & ->).
    exists st4. rewrite length_app.
    now rewrite <- Nat.add_succ_comm, Nat.add_assoc.
Qed.

(** ** The concurrent traversal *)

Lemma indexed_snoc {A : Type} (batches : list A) (x : A) :
  indexed (batches ++ [x]) = indexed batches ++ [(length batches, x)].
Proof.
  unfold indexed. rewrite imap_app. simpl. now rewrite Nat.add_0_r.
Qed.

Lemma take_S_batchesOf {A : Type} (b : nat) (l : list A) (n : nat) :
  n < ceilDiv (length l) b ->
  indexed (take (S n) (batchesOf b l))
  = indexed (take n (batchesOf b l)) ++ [(n, slice b l n)].
Proof.
  intros Hn. rewrite (take_S_r _ _ _ (batchesOf_lookup b l n Hn)), indexed_snoc.
  rewrite length_take, length_batchesOf. now rewrite Nat.min_l by lia.
Qed.

Section FastTraversal.
Variable t : Traverser.
Hypothesis Hmax : maxDocCount (traversalConfig t) = None.
Hypothesis Hexit : exitEarlyPredicates t = [].
Hypothesis Hb : 0 < Z.to_nat (batchSize (traversalConfig t)).

Lemma fast_inv_init : fast_inv t fast_init.
Proof using Hb.
  unfold fast_inv, fast_init. simpl. repeat split; try lia; try discriminate.
  intros _. reflexivity.
Qed.

Lemma fast_fetch (s : FastState) :
  fast_inv t s ->
  fetchPage (traversable t) (fastCursor s)
    (pageLimit (traversalConfig t) (enqueuedDocCount s))
  = if decide (enqueuedBatchCount s
               < ceilDiv (length (traversable t))
                   (Z.to_nat (batchSize (traversalConfig t))))
    then slice (Z.to_nat (batchSize (traversalConfig t))) (traversable t)
           (enqueuedBatchCount s)
    else [].
Proof using Hmax Hb.
  intros (Hle & Hoff & _). unfold fetchPage, pageLimit. rewrite Hmax, Hoff.
  case_decide as Hn.
  - apply ceilDiv_lt in Hn; [|assumption]. now rewrite Nat.min_l by lia.
  - rewrite ceilDiv_lt in Hn by assumption.
    rewrite Nat.min_r by lia. now rewrite drop_all, take_nil.
Qed.

Lemma fast_step_inv (s s' : FastState) :
  fast_inv t s -> fast_step t s s' -> fast_inv t s'.
Proof using Hmax Hexit Hb.
  intros Hinv Hstep. pose proof (fast_fetch s Hinv) as Hfetch.
  destruct Hinv as (Hle & Hoff & Hdocs & Hstop & Hperm).
  destruct Hstep as [s batch Hacc Hceil Hlim Hbatch Hne
                    |s Hacc Hceil Hlim Hempty
                    |s Hacc Hlim
                    |s before batchIndex batch after Hin
                    |s before batchIndex batch after e Hin];
    unfold fast_inv; simpl;
    set (b := Z.to_nat (batchSize (traversalConfig t))) in *;
    set (l := traversable t) in *.
  - rewrite Hfetch in Hbatch. case_decide as Hn; [|congruence].
    pose proof Hn as Hlt. apply ceilDiv_lt in Hlt; [|assumption].
    assert (Hlen : length batch = Nat.min b (length l - enqueuedBatchCount s * b))
      by (subst batch; apply length_slice).
    repeat split.
    + lia.
    + rewrite Hoff. lia.
    + rewrite Hdocs. lia.
    + intros Hshort. apply Nat.leb_gt in Hshort.
      destruct (Nat.lt_ge_cases (S (enqueuedBatchCount s)) (ceilDiv (length l) b))
        as [Hmore|]; [|lia].
      apply ceilDiv_lt in Hmore; [|assumption]. lia.
    + intros Hfail. rewrite take_S_batchesOf by assumption.
      rewrite app_assoc. subst batch.
      apply Permutation_app_tail. now apply Hperm.
  - rewrite Hfetch in Hempty. case_decide as Hn.
    + apply ceilDiv_lt in Hn as Hlt; [|assumption].
      pose proof (length_slice b l (enqueuedBatchCount s)) as Hlen.
      rewrite Hempty in Hlen. simpl in Hlen. lia.
    + repeat split; try assumption. intros _. lia.
  - unfold reachedMaxDocCount in Hlim. rewrite Hmax in Hlim. discriminate.
  - repeat split; try assumption.
    + unfold shouldExitEarly. rewrite Hexit. simpl. rewrite andb_true_r. assumption.
    + intros Hfail. rewrite <- (Hperm Hfail), Hin.
      rewrite <- app_assoc. apply Permutation_app_head.
      simpl. rewrite Permutation_middle. reflexivity.
  - repeat split; try assumption.
    intros Hfail. destruct (failure s); discriminate.
Qed.

Lemma fast_reachable_inv (s : FastState) :
  rtc (fast_step t) fast_init s -> fast_inv t s.
Proof using Hmax Hexit Hb.
  intros Hrun. revert s Hrun. apply rtc_ind_r.
  - apply fast_inv_init.
  - intros s s' _ Hstep Hinv. eapply fast_step_inv; eassumption.
Qed.

(** Every concurrent traversal that finishes without a failed callback
    has admitted each window of the collection exactly once and has seen
    the callback of each resolve. *)
Lemma fast_traverse_complete (s : FastState) (r : TraversalResult.t) :
  rtc (fast_step t) fast_init s ->
  fast_result s = Some (Ok r) ->
  r = TraversalResult.mk
        (ceilDiv (length (traversable t)) (Z.to_nat (batchSize (traversalConfig t))))
        (length (traversable t))
  /\ Permutation (resolved s)
       (indexed (batchesOf (Z.to_nat (batchSize (traversalConfig t))) (traversable t))).
Proof using Hmax Hexit Hb.
  intros Hrun Hres. apply fast_reachable_inv in Hrun.
  destruct Hrun as (Hle & Hoff & Hdocs & Hstop & Hperm).
  unfold fast_result in Hres.
  destruct (accepting s); [discriminate|].
  destruct (inFlight s) eqn:Hfl; [|discriminate].
  destruct (failure s); [discriminate|].
  injection Hres as <-.
  specialize (Hstop eq_refl). specialize (Hperm eq_refl).
  rewrite Hdocs, Hstop. split.
  - f_equal. apply Nat.min_r.
    set (b := Z.to_nat (batchSize (traversalConfig t))) in *.
    destruct (Nat.lt_ge_cases (ceilDiv (length (traversable t)) b * b)
                (length (traversable t))) as [Hlt|]; [|assumption].
    apply ceilDiv_lt in Hlt; [lia|assumption].
  - rewrite app_nil_r, Hstop in Hperm.
    rewrite take_ge in Hperm by (rewrite length_batchesOf; lia).
    assumption.
Qed.

(** Whatever the concurrency ceiling, as long as it admits one unit, the
    concurrent traversal can run to its end. *)
Lemma fast_traverse_progress (d : nat) :
  (0 < maxConcurrentBatchCount (traversalConfig t))%Z ->
  forall s,
    ceilDiv (length (traversable t)) (Z.to_nat (batchSize (traversalConfig t)))
      - enqueuedBatchCount s <= d ->
    fast_inv t s -> inFlight s = [] -> failure s = None ->
    exists s' r, rtc (fast_step t) s s' /\ fast_result s' = Some (Ok r).
Proof using Hmax Hexit Hb.
  intros HK. induction d as [|d IH]; intros s Hd Hinv Hfl Hfail.
  all: destruct (accepting s) eqn:Hacc;
    [|exists s; eexists; split; [apply rtc_refl|];
      unfold fast_result; now rewrite Hacc, Hfl, Hfail].
  all: assert (Hlim : reachedMaxDocCount (traversalConfig t) (enqueuedDocCount s) = false)
    by (unfold reachedMaxDocCount; now rewrite Hmax).
  all: assert (Hceil : (Z.of_nat (length (inFlight s))
                        < maxConcurrentBatchCount (traversalConfig t))%Z)
    by (rewrite Hfl; simpl; lia).
  all: destruct (fetchPage (traversable t) (fastCursor s)
                   (pageLimit (traversalConfig t) (enqueuedDocCount s)))
       as [|x batch] eqn:Hpage.
  1, 3: eexists; eexists; split;
    [apply rtc_once; apply fast_exhausted; assumption|];
    unfold fast_result; simpl; now rewrite Hfl, Hfail.
  - exfalso. rewrite (fast_fetch s Hinv) in Hpage.
    case_decide; [lia|discriminate].
  - pose proof (fast_enqueue t s (x :: batch) Hacc Hceil Hlim (eq_sym Hpage))
      as Hstep1.
    specialize (Hstep1 ltac:(discriminate)).
    match type of Hstep1 with fast_step _ _ ?x1 => set (s1 := x1) in * end.
    assert (Hin : inFlight s1 = [] ++ (enqueuedBatchCount s, x :: batch) :: [])
      by (simpl; now rewrite Hfl).
    pose proof (fast_resolve t s1 [] _ _ [] Hin) as Hstep2.
    match type of Hstep2 with fast_step _ _ ?x2 => set (s2 := x2) in * end.
    destruct (IH s2) as (s' & r & Hrun & Hres).
    + simpl. lia.
    + eapply fast_step_inv; [|exact Hstep2].
      eapply fast_step_inv; [exact Hinv|exact Hstep1].
    + reflexivity.
    + simpl. assumption.
    + exists s', r. split; [|assumption].
      eapply rtc_l; [exact Hstep1|]. eapply rtc_l; [exact Hstep2|]. assumption.
Qed.
End FastTraversal.

Lemma createTraverser_Ok collection config t :
  createTraverser collection config = Ok t ->
  t = mkTraverser collection [] config noCallbacks
  /\ (0 < batchSize config)%Z
  /\ (0 < maxConcurrentBatchCount config)%Z
  /\ (0 <= delayBetweenBatchesMs config)%Z.
Proof.
  unfold createTraverser, new_Traverser, validateConfig.
  destruct (batchSize config <=? 0)%Z eqn:E1;
    destruct (maxConcurrentBatchCount config <=? 0)%Z eqn:E2;
    destruct (delayBetweenBatchesMs config <? 0)%Z eqn:E3;
    simpl; intros H; try discriminate.
  injection H as <-. repeat split; lia.
Qed.

(** C1. For a collection of N records and a batch size B, a traversal that
    runs to completion visits ceil(N/B) batches and N records, every record
    exactly once: the batches are the consecutive windows of B records.
    This holds for the sequential traverser, whose callback is called on
    exactly these batches in order, and for the concurrent traverser under
    every schedule and every concurrency ceiling. *)
Theorem traversal_visits_every_record_once
    (collection : Traversable) (config : TraversalConfig) :
  maxDocCount config = None ->
  let b := Z.to_nat (batchSize config) in
  let batches := batchesOf b collection in
  let result := TraversalResult.mk (ceilDiv (length collection) b) (length collection) in
  (forall t,
      createTraverser collection config = Ok t ->
      (concat batches = collection
       /\ length batches = ceilDiv (length collection) b
       /\ forall k batch, batches !! k = Some batch ->
            batch = slice b collection k /\ 0 < length batch <= b)
      /\ (forall callback st,
            traverse t callback st = invoke_batches t callback batches 0 0 st)
      /\ (forall callback,
            (forall batch batchIndex st,
                exists st', callback batch batchIndex st = (Ok tt, st')) ->
            forall st, fst (traverse t callback st) = Ok result))
  /\ (forall t,
        createFastTraverser collection config = Ok t ->
        (exists s, rtc (fast_step t) fast_init s /\ fast_result s = Some (Ok result))
        /\ forall s r,
             rtc (fast_step t) fast_init s ->
             fast_result s = Some (Ok r) ->
             r = result /\ Permutation (resolved s) (indexed batches)).
Proof.
  intros Hmax b batches result. split.
  - intros t Hcreate.
    destruct (createTraverser_Ok _ _ _ Hcreate) as (-> & Hsize & _ & _).
    assert (Hb : 0 < b) by (unfold b; lia).
    set (t := mkTraverser collection [] config noCallbacks) in *.
    assert (Hpages : pages t = batches) by (now apply pages_unbounded).
    split; [|split].
    + split; [now apply concat_batchesOf|]. split; [apply length_batchesOf|].
      intros k batch Hk.
      assert (Hlt : k < ceilDiv (length collection) b).
      { rewrite <- (length_batchesOf b collection). eapply lookup_lt_Some, Hk. }
      unfold batches in Hk. rewrite batchesOf_lookup in Hk by assumption.
      injection Hk as <-. split; [reflexivity|].
      rewrite length_slice. apply ceilDiv_lt in Hlt; [lia|assumption].
    + intros callback st. rewrite traverse_invoke. now rewrite Hpages.
    + intros callback Hcb st. rewrite traverse_invoke, Hpages.
      destruct (invoke_batches_ok t callback Hcb batches 0 0 st) as (st' & ->).
      simpl. unfold batches, result. now rewrite length_batchesOf, concat_batchesOf.
  - intros t Hcreate.
    destruct (createTraverser_Ok _ _ _ Hcreate) as (-> & Hsize & Hconc & _).
    assert (Hb : 0 < b) by (unfold b; lia).
    set (t := mkTraverser collection [] config noCallbacks) in *.
    split.
    + destruct (fast_traverse_progress t Hmax eq_refl Hb
                  (ceilDiv (length collection) b) Hconc fast_init)
        as (s & r & Hrun & Hres).
      * simpl. fold b. lia.
      * now apply fast_inv_init.
      * reflexivity.
      * reflexivity.
      * exists s. split; [assumption|].
        destruct (fast_traverse_complete t Hmax eq_refl Hb s r Hrun Hres) as (-> & _).
        assumption.
    + intros s r Hrun Hres.
      exact (fast_traverse_complete t Hmax eq_refl Hb s r Hrun Hres).
Qed.

(** The scenario of the specification: ten records in batches of three. *)
Lemma traversal_visits_every_record_once_witness :
  map (@length _) (batchesOf 3 exampleCollection) = [3; 3; 3; 1]
  /\ (forall st,
        fst (traverse exampleTraverser idleCallback st)
        = Ok (TraversalResult.mk 4 10))
  /\ exists s,
       rtc (fast_step exampleTraverser) fast_init s
       /\ fast_result s = Some (Ok (TraversalResult.mk 4 10)).
Proof.
  split; [reflexivity|].
  destruct (traversal_visits_every_record_once exampleCollection exampleConfig
              eq_refl) as (Hslow & Hfast).
  split.
  - destruct (Hslow exampleTraverser eq_refl) as (_ & _ & Hresult).
    apply (Hresult idleCallback).
    intros batch batchIndex st. exists st. reflexivity.
  - destruct (Hfast exampleTraverser eq_refl) as (Hrun & _). exact Hrun.
Defined.

(** The scenario of the specification with [maxDocCount = 5] and
    [batchSize = 3]: the traversal stops after two batches and five
    records. *)
Example traverse_stops_at_maxDocCount :
  map (@length _) (pages limitedTraverser) = [3; 2]
  /\ fst (traverse limitedTraverser idleCallback (initialState allCommit))
     = Ok (TraversalResult.mk 2 5).
Proof. split; reflexivity. Qed.

(** ** The batch callbacks of [set] and [update] *)

Lemma log_nil st : log [] st = st.
Proof. destruct st. unfold log. simpl. now rewrite app_nil_r. Qed.

Lemma log_log events1 events2 st :
  log events2 (log events1 st) = log (events1 ++ events2) st.
Proof. unfold log. simpl. now rewrite app_assoc. Qed.

Lemma runHook_log owner point hook snapshots batchIndex st :
  runHook owner point hook snapshots batchIndex st
  = (Ok tt, log (hookEvents owner point hook snapshots batchIndex) st).
Proof. destruct hook; simpl; [reflexivity|]. now rewrite log_nil. Qed.

(** A [forEach] whose body adds one write for each accepted document and
    skips the others builds the writes of the accepted documents, in
    order, and counts them. *)
Lemma forEach_filter body (accepts : QueryDocumentSnapshot -> bool)
    (write : QueryDocumentSnapshot -> WriteOp) :
  (forall writeBatch count snapshot st,
      body (writeBatch, count) snapshot st
      = if accepts snapshot
        then (Ok (writeBatch ++ [write snapshot], S count),
              log [EvWrite (write snapshot)] st)
        else (Ok (writeBatch, count), st)) ->
  forall snapshots writeBatch count st,
    forEach body snapshots (writeBatch, count) st
    = (Ok (writeBatch ++ map write (List.filter accepts snapshots),
           count + length (List.filter accepts snapshots)),
       log (map EvWrite (map write (List.filter accepts snapshots))) st).
Proof.
  intros Hbody. induction snapshots as [|snapshot rest IH]; intros writeBatch count st.
  - simpl. unfold ret. now rewrite app_nil_r, Nat.add_0_r, log_nil.
  - simpl. unfold bind. rewrite Hbody.
    destruct (accepts snapshot); rewrite IH; [|reflexivity].
    simpl. rewrite log_log, <- app_assoc, Nat.add_succ_r. reflexivity.
Qed.

Lemma set_body_step this dataOrGetData options writeBatch count snapshot st :
  set_body this dataOrGetData options (writeBatch, count) snapshot st
  = if migrationPredicate this snapshot
    then (Ok (writeBatch ++ [set_write dataOrGetData options snapshot], S count),
          log [EvWrite (set_write dataOrGetData options snapshot)] st)
    else (Ok (writeBatch, count), st).
Proof.
  unfold set_body, set_write.
  destruct (migrationPredicate this snapshot); [|reflexivity].
  destruct dataOrGetData, options; reflexivity.
Qed.

Lemma update_body_step this arg1 arg2 writeBatch count snapshot st :
  update_body this arg1 arg2 (argCount arg1 arg2) (writeBatch, count) snapshot st
  = if migrationPredicate this snapshot
    then (Ok (writeBatch ++ [update_write arg1 arg2 snapshot], S count),
          log [EvWrite (update_write arg1 arg2 snapshot)] st)
    else (Ok (writeBatch, count), st).
Proof.
  unfold update_body, update_write.
  destruct arg1; try destruct (Nat.eqb (argCount _ arg2) 1);
    destruct (migrationPredicate this snapshot); reflexivity.
Qed.

(** What one call of the batch callback of [set] does. *)
Lemma set_callback_eq this dataOrGetData options snapshots batchIndex st :
  let ops := set_ops this dataOrGetData options snapshots in
  let before := hookEvents OfMigrator BeforeBatchStart
                  (onBeforeBatchStart (registeredCallbacks this)) snapshots batchIndex in
  let after := hookEvents OfMigrator AfterBatchComplete
                 (onAfterBatchComplete (registeredCallbacks this)) snapshots batchIndex in
  set_callback this dataOrGetData options snapshots batchIndex st
  = if commitOutcome st (attempts st)
    then (Ok tt,
          mkState (committed st ++ [ops]) (S (attempts st)) (commitOutcome st)
            (trace st ++ before ++ map EvWrite ops ++ [EvCommit ops true] ++ after)
            (migratedDocCount st + length ops))
    else (Throw CommitError,
          mkState (committed st) (S (attempts st)) (commitOutcome st)
            (trace st ++ before ++ map EvWrite ops ++ [EvCommit ops false])
            (migratedDocCount st)).
Proof.
  intros ops before after. unfold set_callback, bind.
  rewrite runHook_log.
  rewrite (forEach_filter _ _ _ (set_body_step this dataOrGetData options)).
  fold (migratable this snapshots). fold (set_ops this dataOrGetData options snapshots).
  fold ops. fold before. unfold commit. simpl.
  destruct (commitOutcome st (attempts st)).
  - simpl. rewrite runHook_log. fold after. unfold log. simpl.
    assert (Hlen : length ops = length (migratable this snapshots))
      by (unfold ops, set_ops; apply length_map).
    rewrite Hlen. now rewrite <- !app_assoc.
  - now rewrite <- !app_assoc.
Qed.

(** What one call of the batch callback of [update] does. *)
Lemma update_callback_eq this arg1 arg2 snapshots batchIndex st :
  let ops := update_ops this arg1 arg2 snapshots in
  update_callback this arg1 arg2 (argCount arg1 arg2) snapshots batchIndex st
  = if commitOutcome st (attempts st)
    then (Ok tt,
          mkState (committed st ++ [ops]) (S (attempts st)) (commitOutcome st)
            (trace st ++ map EvWrite ops ++ [EvCommit ops true])
            (migratedDocCount st + length ops))
    else (Throw CommitError,
          mkState (committed st) (S (attempts st)) (commitOutcome st)
            (trace st ++ map EvWrite ops ++ [EvCommit ops false])
            (migratedDocCount st)).
Proof.
  intros ops. unfold update_callback, bind.
  rewrite (forEach_filter _ _ _ (update_body_step this arg1 arg2)).
  fold (migratable this snapshots). fold (update_ops this arg1 arg2 snapshots).
  fold ops. unfold commit. simpl.
  destruct (commitOutcome st (attempts st)).
  - simpl. unfold put_migratedDocCount. simpl.
    assert (Hlen : length ops = length (migratable this snapshots))
      by (unfold ops, update_ops; apply length_map).
    rewrite Hlen. now rewrite <- !app_assoc.
  - now rewrite <- !app_assoc.
Qed.

Lemma set_commits_batch this dataOrGetData options :
  commits_batch (set_callback this dataOrGetData options)
    (set_ops this dataOrGetData options).
Proof.
  intros snapshots batchIndex st.
  pose proof (set_callback_eq this dataOrGetData options snapshots batchIndex st) as H.
  simpl in H.
  destruct (commitOutcome st (attempts st)); eexists;
    (split; [|split; [|split; [exact H|split]]]); reflexivity.
Qed.

Lemma update_commits_batch this arg1 arg2 :
  commits_batch (update_callback this arg1 arg2 (argCount arg1 arg2))
    (update_ops this arg1 arg2).
Proof.
  intros snapshots batchIndex st.
  pose proof (update_callback_eq this arg1 arg2 snapshots batchIndex st) as H.
  simpl in H.
  destruct (commitOutcome st (attempts st)); eexists;
    (split; [|split; [|split; [exact H|split]]]); reflexivity.
Qed.

(** ** Migrations over the sequential traverser *)

Section CommittingCallback.
Variable t : Traverser.
Variable callback : BatchCallbackAsync.
Variable opsOf : list QueryDocumentSnapshot -> WriteBatch.
Hypothesis Hcallback : commits_batch callback opsOf.

(** One round of the traversal: the commit of the batch decides whether
    the traversal goes on with the next batch or stops with the commit
    error. *)
Lemma invoke_batches_step batch rest batchIndex docCount st :
  exists st',
    commitOutcome st' = commitOutcome st
    /\ attempts st' = S (attempts st)
    /\ if commitOutcome st (attempts st)
       then invoke_batches t callback (batch :: rest) batchIndex docCount st
            = invoke_batches t callback rest (S batchIndex)
                (docCount + length batch) st'
            /\ committed st' = committed st ++ [opsOf batch]
            /\ migratedDocCount st' = migratedDocCount st + length (opsOf batch)
       else invoke_batches t callback (batch :: rest) batchIndex docCount st
            = (Throw CommitError, st')
            /\ committed st' = committed st
            /\ migratedDocCount st' = migratedDocCount st.
Proof using Hcallback.
  simpl. unfold bind.
  destruct (runHook_ok OfTraverser BeforeBatchStart
              (onBeforeBatchStart (traverserCallbacks t)) batch batchIndex st)
    as (st1 & -> & Hc1 & Ha1 & Ho1 & Hm1).
  destruct (Hcallback batch batchIndex st1) as (st2 & Ho2 & Ha2 & Hcb).
  rewrite Ho1, Ha1 in Hcb.
  destruct (commitOutcome st (attempts st)).
  - destruct Hcb as (-> & Hc2 & Hm2).
    destruct (runHook_ok OfTraverser AfterBatchComplete
                (onAfterBatchComplete (traverserCallbacks t)) batch batchIndex st2)
      as (st3 & -> & Hc3 & Ha3 & Ho3 & Hm3).
    exists st3. repeat split; congruence.
  - destruct Hcb as (-> & Hc2 & Hm2).
    exists st2. repeat split; congruence.
Qed.

(** All commits succeed: every batch is committed, in order. *)
Lemma invoke_commits_ok batches :
  forall batchIndex docCount st,
    (forall j, j < length batches -> commitOutcome st (attempts st + j) = true) ->
    exists st',
      invoke_batches t callback batches batchIndex docCount st
      = (Ok (TraversalResult.mk (batchIndex + length batches)
               (docCount + length (concat batches))), st')
      /\ commitOutcome st' = commitOutcome st
      /\ attempts st' = attempts st + length batches
      /\ committed st' = committed st ++ map opsOf batches
      /\ migratedDocCount st'
         = migratedDocCount st + length (concat (map opsOf batches)).
Proof using Hcallback.
  induction batches as [|batch rest IH]; intros batchIndex docCount st Hok.
  - exists st. simpl. unfold ret. rewrite !Nat.add_0_r, app_nil_r. auto.
  - destruct (invoke_batches_step batch rest batchIndex docCount st)
      as (st1 & Ho1 & Ha1 & Hstep).
    pose proof (Hok 0 ltac:(simpl; lia)) as H0.
    rewrite Nat.add_0_r in H0. rewrite H0 in Hstep.
    destruct Hstep as (-> & Hc1 & Hm1).
    destruct (IH (S batchIndex) (docCount + length batch) st1)
      as (st' & -> & Ho & Ha & Hc & Hm).
    { intros j Hj. rewrite Ho1, Ha1.
      replace (S (attempts st) + j) with (attempts st + S j) by lia.
      apply Hok. simpl. lia. }
    exists st'. simpl. rewrite !length_app.
    split; [|split; [|split; [|split]]].
    + now rewrite Nat.add_succ_r, Nat.add_assoc.
    + congruence.
    + lia.
    + rewrite Hc, Hc1, <- app_assoc. reflexivity.
    + rewrite Hm, Hm1. lia.
Qed.

(** The commit of batch [k] fails: the traversal stops there with the
    commit error, the batches before [k] stay committed and nothing after
    [k] is attempted. *)
Lemma invoke_commits_fail batches :
  forall k batchIndex docCount st,
    k < length batches ->
    (forall j, j < k -> commitOutcome st (attempts st + j) = true) ->
    commitOutcome st (attempts st + k) = false ->
    exists st',
      invoke_batches t callback batches batchIndex docCount st
      = (Throw CommitError, st')
      /\ commitOutcome st' = commitOutcome st
      /\ attempts st' = attempts st + S k
      /\ committed st' = committed st ++ map opsOf (take k batches)
      /\ migratedDocCount st'
         = migratedDocCount st + length (concat (map opsOf (take k batches))).
Proof using Hcallback.
  induction batches as [|batch rest IH];
    intros k batchIndex docCount st Hk Hok Hfail; [simpl in Hk; lia|].
  destruct (invoke_batches_step batch rest batchIndex docCount st)
    as (st1 & Ho1 & Ha1 & Hstep).
  destruct k as [|k].
  - rewrite Nat.add_0_r in Hfail. rewrite Hfail in Hstep.
    destruct Hstep as (-> & Hc1 & Hm1).
    exists st1. simpl. rewrite app_nil_r, Nat.add_0_r.
    split; [reflexivity|split; [|split; [|split]]]; try congruence. lia.
  - pose proof (Hok 0 ltac:(lia)) as H0.
    rewrite Nat.add_0_r in H0. rewrite H0 in Hstep.
    destruct Hstep as (-> & Hc1 & Hm1).
    destruct (IH k (S batchIndex) (docCount + length batch) st1)
      as (st' & -> & Ho & Ha & Hc & Hm).
    + simpl in Hk. lia.
    + intros j Hj. rewrite Ho1, Ha1.
      replace (S (attempts st) + j) with (attempts st + S j) by lia.
      apply Hok. lia.
    + rewrite Ho1, Ha1.
      replace (S (attempts st) + k) with (attempts st + S k) by lia. assumption.
    + exists st'. simpl. rewrite !length_app.
      split; [reflexivity|split; [|split; [|split]]].
      * congruence.
      * lia.
      * rewrite Hc, Hc1, <- app_assoc. reflexivity.
      * rewrite Hm, Hm1. lia.
Qed.

(** Whatever the commits do, the traversal ends either with its result or
    with a commit error, and [migratedDocCount] has grown by the size of
    the write batches committed meanwhile. *)
Lemma invoke_commits_any batches :
  forall batchIndex docCount st,
    exists r st' k,
      invoke_batches t callback batches batchIndex docCount st = (r, st')
      /\ k <= length batches
      /\ attempts st' = attempts st + Nat.min (S k) (length batches)
      /\ committed st' = committed st ++ map opsOf (take k batches)
      /\ migratedDocCount st'
         = migratedDocCount st + length (concat (map opsOf (take k batches)))
      /\ (r = Ok (TraversalResult.mk (batchIndex + length batches)
                    (docCount + length (concat batches)))
          /\ k = length batches
          \/ r = Throw CommitError /\ k < length batches).
Proof using Hcallback.
  induction batches as [|batch rest IH]; intros batchIndex docCount st.
  - exists (Ok (TraversalResult.mk batchIndex docCount)), st, 0. simpl.
    rewrite !Nat.add_0_r, app_nil_r.
    split; [reflexivity|split; [|split; [|split; [|split]]]]; auto.
  - destruct (invoke_batches_step batch rest batchIndex docCount st)
      as (st1 & Ho1 & Ha1 & Hstep).
    destruct (commitOutcome st (attempts st)).
    + destruct Hstep as (-> & Hc1 & Hm1).
      destruct (IH (S batchIndex) (docCount + length batch) st1)
        as (r & st' & k & -> & Hk & Ha & Hc & Hm & Hr).
      exists r, st', (S k). cbn [firstn map concat length]. rewrite !length_app.
      split; [reflexivity|split; [|split; [|split; [|split]]]].
      * lia.
      * lia.
      * rewrite Hc, Hc1, <- app_assoc. reflexivity.
      * rewrite Hm, Hm1. lia.
      * destruct Hr as [(-> & ->)|(-> & Hlt)]; [left|right]; split; try lia;
          try reflexivity.
        now rewrite Nat.add_succ_r, Nat.add_assoc.
    + destruct Hstep as (-> & Hc1 & Hm1).
      exists (Throw CommitError), st1, 0. cbn [firstn map concat length].
      rewrite app_nil_r, Nat.add_0_r.
      split; [reflexivity|split; [|split; [|split; [|split]]]];
        try congruence; try lia.
      right. split; [reflexivity|lia].
Qed.
End CommittingCallback.

Lemma set_runMigration this dataOrGetData options :
  set this dataOrGetData options
  = runMigration (traverser this) (set_callback this dataOrGetData options).
Proof. reflexivity. Qed.

Lemma update_runMigration this arg1 arg2 :
  update this arg1 arg2
  = runMigration (traverser this)
      (update_callback this arg1 arg2 (argCount arg1 arg2)).
Proof. reflexivity. Qed.

Section Migration.
Variable t : Traverser.
Variable callback : BatchCallbackAsync.
Variable opsOf : list QueryDocumentSnapshot -> WriteBatch.
Hypothesis Hcallback : commits_batch callback opsOf.

Lemma runMigration_any st :
  exists r st' k,
    runMigration t callback st = (r, st')
    /\ k <= length (pages t)
    /\ attempts st' = attempts st + Nat.min (S k) (length (pages t))
    /\ committed st' = committed st ++ map opsOf (take k (pages t))
    /\ migratedDocCount st' = length (concat (map opsOf (take k (pages t))))
    /\ (r = Ok (MigrationResult.mk (length (pages t))
                  (length (concat (pages t)))
                  (length (concat (map opsOf (pages t)))))
        /\ k = length (pages t)
        \/ r = Throw CommitError /\ k < length (pages t)).
Proof using Hcallback.
  unfold runMigration, bind. simpl. rewrite traverse_invoke.
  match goal with |- context [invoke_batches _ _ _ _ _ ?s] => set (st0 := s) end.
  destruct (invoke_commits_any t callback opsOf Hcallback (pages t) 0 0 st0)
    as (r & st' & k & -> & Hk & Ha & Hc & Hm & Hr).
  simpl in Ha, Hc, Hm.
  destruct Hr as [(-> & ->)|(-> & Hlt)].
  - eexists; exists st', (length (pages t)).
    split; [reflexivity|]. simpl. rewrite Hm.
    rewrite take_ge in * by lia. auto 10.
  - exists (Throw CommitError), st', k. auto 10.
Qed.

Lemma runMigration_ok st :
  (forall j, j < length (pages t) -> commitOutcome st (attempts st + j) = true) ->
  exists st',
    runMigration t callback st
    = (Ok (MigrationResult.mk (length (pages t)) (length (concat (pages t)))
             (length (concat (map opsOf (pages t))))), st')
    /\ commitOutcome st' = commitOutcome st
    /\ attempts st' = attempts st + length (pages t)
    /\ committed st' = committed st ++ map opsOf (pages t).
Proof using Hcallback.
  intros Hok. unfold runMigration, bind. simpl. rewrite traverse_invoke.
  match goal with |- context [invoke_batches _ _ _ _ _ ?s] => set (st0 := s) end.
  destruct (invoke_commits_ok t callback opsOf Hcallback (pages t) 0 0 st0 Hok)
    as (st' & -> & Ho & Ha & Hc & Hm).
  exists st'. simpl. rewrite Hm. auto.
Qed.

Lemma runMigration_fail st k :
  k < length (pages t) ->
  (forall j, j < k -> commitOutcome st (attempts st + j) = true) ->
  commitOutcome st (attempts st + k) = false ->
  exists st',
    runMigration t callback st = (Throw CommitError, st')
    /\ commitOutcome st' = commitOutcome st
    /\ attempts st' = attempts st + S k
    /\ committed st' = committed st ++ map opsOf (take k (pages t))
    /\ migratedDocCount st' = length (concat (map opsOf (take k (pages t)))).
Proof using Hcallback.
  intros Hk Hok Hfail. unfold runMigration, bind. simpl. rewrite traverse_invoke.
  match goal with |- context [invoke_batches _ _ _ _ _ ?s] => set (st0 := s) end.
  destruct (invoke_commits_fail t callback opsOf Hcallback (pages t) k 0 0 st0
              Hk Hok Hfail)
    as (st' & -> & Ho & Ha & Hc & Hm).
  exists st'. auto.
Qed.
End Migration.

Lemma length_migratable_concat this batches :
  length (concat (map (migratable this) batches))
  = length (migratable this (concat batches)).
Proof.
  induction batches as [|batch rest IH]; [reflexivity|].
  simpl. unfold migratable in *. rewrite List.filter_app, !length_app. now rewrite IH.
Qed.

Lemma length_concat_map_ops (write : QueryDocumentSnapshot -> WriteOp) this batches :
  length (concat (map (fun batch => map write (migratable this batch)) batches))
  = length (migratable this (concat batches)).
Proof.
  rewrite <- length_migratable_concat.
  induction batches as [|batch rest IH]; [reflexivity|].
  simpl. rewrite !length_app, length_map. now rewrite IH.
Qed.

Lemma migratable_default this snapshots :
  migrationPredicate this = (fun _ => true) ->
  migratable this snapshots = snapshots.
Proof.
  intros Hp. unfold migratable. rewrite Hp.
  induction snapshots as [|s rest IH]; [reflexivity|]. simpl. now rewrite IH.
Qed.

Lemma target_set_ops this dataOrGetData options snapshots :
  map target (set_ops this dataOrGetData options snapshots)
  = map ref (migratable this snapshots).
Proof.
  unfold set_ops. rewrite map_map. apply map_ext. intros snapshot.
  unfold set_write. now destruct dataOrGetData, options.
Qed.

Lemma target_update_ops this arg1 arg2 snapshots :
  map target (update_ops this arg1 arg2 snapshots)
  = map ref (migratable this snapshots).
Proof.
  unfold update_ops. rewrite map_map. apply map_ext. intros snapshot.
  unfold update_write. destruct arg1; simpl; try reflexivity;
    now destruct (Nat.eqb _ _).
Qed.

(** ** The write of a batch *)

(** C3. For each batch it is given, the batch callback of [set] and of
    [update] commits exactly one write batch; the write batch addresses
    exactly the documents of the batch that the migration predicate accepts,
    in order; the commit either applies the whole write batch or nothing.
    A migration whose commits all succeed leaves one committed write batch
    per batch visited.  Atomicity stops at the batch: when the commit of
    batch [k] fails, the write batches of the batches before [k] stay
    committed. *)
Theorem migrator_commits_one_atomic_write_per_batch
    (this : BatchMigrator) (dataOrGetData : Js) (options : option SetOptions)
    (arg1 arg2 : Js) (st : State) :
  let batches := pages (traverser this) in
  (forall snapshots batchIndex,
      map target (set_ops this dataOrGetData options snapshots)
      = map ref (List.filter (migrationPredicate this) snapshots)
      /\ exists st',
           attempts st' = S (attempts st)
           /\ if commitOutcome st (attempts st)
              then set_callback this dataOrGetData options snapshots batchIndex st
                   = (Ok tt, st')
                   /\ committed st'
                      = committed st ++ [set_ops this dataOrGetData options snapshots]
              else set_callback this dataOrGetData options snapshots batchIndex st
                   = (Throw CommitError, st')
                   /\ committed st' = committed st)
  /\ (forall snapshots batchIndex,
        map target (update_ops this arg1 arg2 snapshots)
        = map ref (List.filter (migrationPredicate this) snapshots)
        /\ exists st',
             attempts st' = S (attempts st)
             /\ if commitOutcome st (attempts st)
                then update_callback this arg1 arg2 (argCount arg1 arg2) snapshots batchIndex st
                     = (Ok tt, st')
                     /\ committed st'
                        = committed st ++ [update_ops this arg1 arg2 snapshots]
                else update_callback this arg1 arg2 (argCount arg1 arg2) snapshots batchIndex st
                     = (Throw CommitError, st')
                     /\ committed st' = committed st)
  /\ ((forall j, j < length batches -> commitOutcome st (attempts st + j) = true) ->
      (exists r st',
          set this dataOrGetData options st = (Ok r, st')
          /\ attempts st' = attempts st + length batches
          /\ committed st'
             = committed st ++ map (set_ops this dataOrGetData options) batches)
      /\ (exists r st',
            update this arg1 arg2 st = (Ok r, st')
            /\ attempts st' = attempts st + length batches
            /\ committed st'
               = committed st ++ map (update_ops this arg1 arg2) batches))
  /\ (forall k,
        k < length batches ->
        (forall j, j < k -> commitOutcome st (attempts st + j) = true) ->
        commitOutcome st (attempts st + k) = false ->
        (exists st',
            set this dataOrGetData options st = (Throw CommitError, st')
            /\ committed st'
               = committed st
                 ++ map (set_ops this dataOrGetData options) (take k batches))
        /\ (exists st',
              update this arg1 arg2 st = (Throw CommitError, st')
              /\ committed st'
                 = committed st
                   ++ map (update_ops this arg1 arg2) (take k batches))).
Proof.
  intros batches. split; [|split; [|split]].
  - intros snapshots batchIndex. split; [apply target_set_ops|].
    destruct (set_commits_batch this dataOrGetData options snapshots batchIndex st)
      as (st' & _ & Ha & H).
    exists st'. split; [assumption|].
    destruct (commitOutcome st (attempts st)); tauto.
  - intros snapshots batchIndex. split; [apply target_update_ops|].
    destruct (update_commits_batch this arg1 arg2 snapshots batchIndex st)
      as (st' & _ & Ha & H).
    exists st'. split; [assumption|].
    destruct (commitOutcome st (attempts st)); tauto.
  - intros Hok. rewrite set_runMigration, update_runMigration. split.
    + destruct (runMigration_ok _ _ _ (set_commits_batch this dataOrGetData options)
                  st Hok) as (st' & H & _ & Ha & Hc).
      eauto 6.
    + destruct (runMigration_ok _ _ _ (update_commits_batch this arg1 arg2) st Hok)
        as (st' & H & _ & Ha & Hc).
      eauto 6.
  - intros k Hk Hok Hfail. rewrite set_runMigration, update_runMigration. split.
    + destruct (runMigration_fail _ _ _ (set_commits_batch this dataOrGetData options)
                  st k Hk Hok Hfail) as (st' & H & _ & _ & Hc & _).
      eauto.
    + destruct (runMigration_fail _ _ _ (update_commits_batch this arg1 arg2)
                  st k Hk Hok Hfail) as (st' & H & _ & _ & Hc & _).
      eauto.
Qed.

(** The ten example documents in batches of three, the second commit
    failing: the first write batch, for the pending documents "0" and "2",
    stays committed. *)
Lemma migrator_commits_one_atomic_write_per_batch_witness :
  exists st',
    set exampleMigrator (Val (VNum 1)) None (initialState (failAt 1))
    = (Throw CommitError, st')
    /\ committed st'
       = [[OpSet "0" (Val (VNum 1)) None; OpSet "2" (Val (VNum 1)) None]].
Proof.
  destruct (migrator_commits_one_atomic_write_per_batch exampleMigrator
              (Val (VNum 1)) None Undefined Undefined (initialState (failAt 1)))
    as (_ & _ & _ & Hfail).
  destruct (Hfail 1) as ((st' & Hset & Hc) & _).
  - vm_compute. lia.
  - intros j Hj. assert (j = 0) as -> by lia. reflexivity.
  - reflexivity.
  - exists st'. split; [exact Hset|]. rewrite Hc. reflexivity.
Defined.

(** The scenario of the specification: of a batch of five documents two are
    pending; the callback commits one write batch with two writes and adds
    two to [migratedDocCount]. *)
Example set_callback_two_of_five :
  set_callback exampleMigrator (Val (VNum 1)) None exampleBatch 0
    (initialState allCommit)
  = (Ok tt,
     mkState [[OpSet "2" (Val (VNum 1)) None; OpSet "4" (Val (VNum 1)) None]]
       1 allCommit
       [EvHook OfMigrator BeforeBatchStart "before" exampleBatch 0;
        EvWrite (OpSet "2" (Val (VNum 1)) None);
        EvWrite (OpSet "4" (Val (VNum 1)) None);
        EvCommit [OpSet "2" (Val (VNum 1)) None; OpSet "4" (Val (VNum 1)) None] true;
        EvHook OfMigrator AfterBatchComplete "after" exampleBatch 0]
       2).
Proof. reflexivity. Qed.

(** ** The migration result *)

Lemma list_sum_migratable this batches :
  list_sum (map (fun batch => length (migratable this batch)) batches)
  = length (migratable this (concat batches)).
Proof.
  rewrite <- length_migratable_concat, length_concat, map_map. reflexivity.
Qed.

Lemma new_BatchMigrator_Ok t predicate h l h' :
  new_BatchMigrator t predicate h = Ok (l, h') ->
  validateConfig (traversalConfig t) = Ok tt
  /\ l = alloc h
  /\ h' = <[alloc h :=
             mkBatchMigrator t
               (match predicate with Some p => p | None => fun _ => true end)
               noCallbacks]> h.
Proof.
  unfold new_BatchMigrator.
  destruct (validateConfig (traversalConfig t)) as [[]| |]; intros H;
    try discriminate.
  injection H as <- <-. auto.
Qed.

Lemma target_concat_ops this batches opsOf :
  (forall snapshots,
      map target (opsOf snapshots) = map ref (migratable this snapshots)) ->
  map target (concat (map opsOf batches))
  = map ref (List.filter (migrationPredicate this) (concat batches)).
Proof.
  intros Hops. fold (migratable this (concat batches)).
  induction batches as [|batch rest IH]; [reflexivity|].
  simpl. unfold migratable in *. rewrite List.filter_app, !map_app.
  now rewrite IH, Hops.
Qed.

(** C4. When a migration call completes successfully, [migratedDocCount]
    is the number of documents, summed over all batches, that the migration
    predicate accepts, and these are the documents written by the committed
    write batches.  A migrator constructed without a predicate accepts every
    document, so its [migratedDocCount] equals [traversedDocCount]. *)
Theorem migratedDocCount_counts_committed_documents
    (this : BatchMigrator) (dataOrGetData : Js) (options : option SetOptions)
    (arg1 arg2 : Js) (st : State) :
  let batches := pages (traverser this) in
  let accepted :=
    list_sum (map (fun batch =>
                     length (List.filter (migrationPredicate this) batch)) batches) in
  (forall r st',
      set this dataOrGetData options st = (Ok r, st') ->
      MigrationResult.migratedDocCount r = accepted
      /\ MigrationResult.traversedDocCount r = length (concat batches)
      /\ MigrationResult.batchCount r = length batches
      /\ exists new,
           committed st' = committed st ++ new
           /\ map target (concat new)
              = map ref (List.filter (migrationPredicate this) (concat batches)))
  /\ (forall r st',
        update this arg1 arg2 st = (Ok r, st') ->
        MigrationResult.migratedDocCount r = accepted
        /\ MigrationResult.traversedDocCount r = length (concat batches)
        /\ MigrationResult.batchCount r = length batches
        /\ exists new,
             committed st' = committed st ++ new
             /\ map target (concat new)
                = map ref (List.filter (migrationPredicate this) (concat batches)))
  /\ (forall h l h',
        new_BatchMigrator (traverser this) None h = Ok (l, h') ->
        h' !! l = Some this ->
        accepted = length (concat batches)).
Proof.
  intros batches accepted.
  assert (Haccepted : accepted = length (migratable this (concat batches)))
    by apply list_sum_migratable.
  pose proof (target_concat_ops this batches) as Htargets.
  split; [|split].
  - intros r st' Hset. rewrite set_runMigration in Hset.
    destruct (runMigration_any (traverser this) _ _ (set_commits_batch this dataOrGetData options) st)
      as (r0 & st0 & k & Hrun & Hk & Ha & Hc & Hm & Hr).
    rewrite Hrun in Hset. injection Hset as -> ->.
    destruct Hr as [(Hr & ->)|(Hr & _)]; [|discriminate].
    injection Hr as ->. simpl. fold batches in Hc |- *.
    rewrite take_ge in Hc by lia.
    split; [|split; [reflexivity|split; [reflexivity|]]].
    + rewrite Haccepted. unfold set_ops. apply length_concat_map_ops.
    + eexists. split; [exact Hc|]. apply Htargets. intros. apply target_set_ops.
  - intros r st' Hupd. rewrite update_runMigration in Hupd.
    destruct (runMigration_any (traverser this) _ _ (update_commits_batch this arg1 arg2) st)
      as (r0 & st0 & k & Hrun & Hk & Ha & Hc & Hm & Hr).
    rewrite Hrun in Hupd. injection Hupd as -> ->.
    destruct Hr as [(Hr & ->)|(Hr & _)]; [|discriminate].
    injection Hr as ->. simpl. fold batches in Hc |- *.
    rewrite take_ge in Hc by lia.
    split; [|split; [reflexivity|split; [reflexivity|]]].
    + rewrite Haccepted. unfold update_ops. apply length_concat_map_ops.
    + eexists. split; [exact Hc|]. apply Htargets. intros. apply target_update_ops.
  - intros h l h' Hnew Hlook.
    apply new_BatchMigrator_Ok in Hnew as (_ & -> & ->).
    rewrite lookup_insert_eq in Hlook. injection Hlook as Hthis.
    rewrite Haccepted, migratable_default; [reflexivity|].
    now rewrite <- Hthis.
Qed.

(** The ten example documents in batches of three: the migrator for the
    pending ones migrates five, a migrator constructed without a predicate
    migrates all ten. *)
Lemma migratedDocCount_counts_committed_documents_witness :
  (exists st',
      set exampleMigrator (Val (VNum 1)) None (initialState allCommit)
      = (Ok (MigrationResult.mk 4 10 5), st')
      /\ MigrationResult.migratedDocCount (MigrationResult.mk 4 10 5)
         = list_sum (map (fun batch => length (List.filter isPending batch))
                       (pages exampleTraverser)))
  /\ exists l h' this r st',
       new_BatchMigrator exampleTraverser None ∅ = Ok (l, h')
       /\ h' !! l = Some this
       /\ update this (Val (VMap [("status", VStr "done")])) Undefined
            (initialState allCommit) = (Ok r, st')
       /\ MigrationResult.migratedDocCount r = MigrationResult.traversedDocCount r.
Proof.
  split.
  - exists (snd (set exampleMigrator (Val (VNum 1)) None (initialState allCommit))).
    assert (Hset : set exampleMigrator (Val (VNum 1)) None (initialState allCommit)
                   = (Ok (MigrationResult.mk 4 10 5),
                      snd (set exampleMigrator (Val (VNum 1)) None
                             (initialState allCommit))))
      by (vm_compute; reflexivity).
    split; [exact Hset|].
    destruct (migratedDocCount_counts_committed_documents exampleMigrator
                (Val (VNum 1)) None Undefined Undefined (initialState allCommit))
      as (Hcount & _).
    destruct (Hcount _ _ Hset) as (Hmigrated & _). exact Hmigrated.
  - set (this := mkBatchMigrator exampleTraverser (fun _ => true) noCallbacks).
    set (arg := Val (VMap [("status", VStr "done")])).
    assert (Hnew : new_BatchMigrator exampleTraverser None ∅
                   = Ok (alloc ∅, <[alloc ∅ := this]> ∅))
      by reflexivity.
    assert (Hlook : (<[alloc ∅ := this]> ∅ : gmap loc BatchMigrator) !! alloc ∅
                    = Some this)
      by apply lookup_insert_eq.
    destruct (update this arg Undefined (initialState allCommit)) as [r st'] eqn:Hupd.
    destruct r as [r| |]; try (vm_compute in Hupd; discriminate).
    exists (alloc ∅), (<[alloc ∅ := this]> ∅), this, r, st'.
    split; [exact Hnew|]. split; [exact Hlook|]. split; [exact Hupd|].
    destruct (migratedDocCount_counts_committed_documents this Undefined None
                arg Undefined (initialState allCommit))
      as (_ & Hcount & Hdefault).
    destruct (Hcount _ _ Hupd) as (-> & -> & _).
    exact (Hdefault _ _ _ Hnew Hlook).
Defined.

(** ** Failing commits *)

(** C5. When the commit of batch [k] fails, the migration call does not
    return a result but the commit error; no commit is attempted after the
    failed one, and the write batches of the batches before [k] are still
    committed, behind everything that was committed before the call. *)
Theorem commit_failure_aborts_migration
    (this : BatchMigrator) (dataOrGetData : Js) (options : option SetOptions)
    (arg1 arg2 : Js) (st : State) (k : nat) :
  let batches := pages (traverser this) in
  k < length batches ->
  (forall j, j < k -> commitOutcome st (attempts st + j) = true) ->
  commitOutcome st (attempts st + k) = false ->
  (exists st',
      set this dataOrGetData options st = (Throw CommitError, st')
      /\ attempts st' = attempts st + S k
      /\ committed st'
         = committed st ++ map (set_ops this dataOrGetData options) (take k batches))
  /\ (exists st',
        update this arg1 arg2 st = (Throw CommitError, st')
        /\ attempts st' = attempts st + S k
        /\ committed st'
           = committed st ++ map (update_ops this arg1 arg2) (take k batches)).
Proof.
  intros batches Hk Hok Hfail. rewrite set_runMigration, update_runMigration. split.
  - destruct (runMigration_fail _ _ _ (set_commits_batch this dataOrGetData options)
                st k Hk Hok Hfail) as (st' & H & _ & Ha & Hc & _).
    eauto.
  - destruct (runMigration_fail _ _ _ (update_commits_batch this arg1 arg2)
                st k Hk Hok Hfail) as (st' & H & _ & Ha & Hc & _).
    eauto.
Qed.

(** The scenario of the specification: four batches, the commit of the
    second one fails.  Two commits were attempted and the write batch of the
    first batch persists. *)
Lemma commit_failure_aborts_migration_witness :
  exists st',
    update exampleMigrator (Val (VMap [("status", VStr "done")])) Undefined
      (initialState (failAt 1))
    = (Throw CommitError, st')
    /\ attempts st' = 2
    /\ committed st'
       = [[OpUpdateData "0" (Val (VMap [("status", VStr "done")]));
           OpUpdateData "2" (Val (VMap [("status", VStr "done")]))]].
Proof.
  destruct (commit_failure_aborts_migration exampleMigrator Undefined None
              (Val (VMap [("status", VStr "done")])) Undefined
              (initialState (failAt 1)) 1) as (_ & (st' & Hupd & Ha & Hc)).
  - vm_compute. lia.
  - intros j Hj. assert (j = 0) as -> by lia. reflexivity.
  - reflexivity.
  - exists st'. split; [exact Hupd|]. split; [exact Ha|]. rewrite Hc. reflexivity.
Defined.

(** C10. [migratedDocCount] grows only after a commit has resolved: a batch
    callback whose commit fails leaves it unchanged, one whose commit
    succeeds adds the size of the write batch it committed.  However a
    [set] or [update] call ends, [migratedDocCount] is the number of writes
    in the write batches the call has committed. *)
Theorem migratedDocCount_reflects_committed_batches
    (this : BatchMigrator) (dataOrGetData : Js) (options : option SetOptions)
    (arg1 arg2 : Js) (st : State) :
  (forall snapshots batchIndex,
      exists st',
        if commitOutcome st (attempts st)
        then set_callback this dataOrGetData options snapshots batchIndex st
             = (Ok tt, st')
             /\ committed st'
                = committed st ++ [set_ops this dataOrGetData options snapshots]
             /\ migratedDocCount st'
                = migratedDocCount st
                  + length (set_ops this dataOrGetData options snapshots)
        else set_callback this dataOrGetData options snapshots batchIndex st
             = (Throw CommitError, st')
             /\ committed st' = committed st
             /\ migratedDocCount st' = migratedDocCount st)
  /\ (forall snapshots batchIndex,
        exists st',
          if commitOutcome st (attempts st)
          then update_callback this arg1 arg2 (argCount arg1 arg2) snapshots batchIndex st = (Ok tt, st')
               /\ committed st'
                  = committed st ++ [update_ops this arg1 arg2 snapshots]
               /\ migratedDocCount st'
                  = migratedDocCount st + length (update_ops this arg1 arg2 snapshots)
          else update_callback this arg1 arg2 (argCount arg1 arg2) snapshots batchIndex st
               = (Throw CommitError, st')
               /\ committed st' = committed st
               /\ migratedDocCount st' = migratedDocCount st)
  /\ (exists r st' new,
        set this dataOrGetData options st = (r, st')
        /\ committed st' = committed st ++ new
        /\ migratedDocCount st' = length (concat new)
        /\ (forall result, r = Ok result ->
              MigrationResult.migratedDocCount result = length (concat new)))
  /\ (exists r st' new,
        update this arg1 arg2 st = (r, st')
        /\ committed st' = committed st ++ new
        /\ migratedDocCount st' = length (concat new)
        /\ (forall result, r = Ok result ->
              MigrationResult.migratedDocCount result = length (concat new))).
Proof.
  split; [|split; [|split]].
  - intros snapshots batchIndex.
    destruct (set_commits_batch this dataOrGetData options snapshots batchIndex st)
      as (st' & _ & _ & H).
    exists st'. exact H.
  - intros snapshots batchIndex.
    destruct (update_commits_batch this arg1 arg2 snapshots batchIndex st)
      as (st' & _ & _ & H).
    exists st'. exact H.
  - rewrite set_runMigration.
    destruct (runMigration_any (traverser this) _ _ (set_commits_batch this dataOrGetData options) st)
      as (r & st' & k & Hrun & Hk & Ha & Hc & Hm & Hr).
    exists r, st'. eexists. split; [exact Hrun|]. split; [exact Hc|].
    split; [exact Hm|].
    intros result ->. destruct Hr as [(Hr & ->)|(Hr & _)]; [|discriminate].
    injection Hr as ->. simpl. now rewrite take_ge by lia.
  - rewrite update_runMigration.
    destruct (runMigration_any (traverser this) _ _ (update_commits_batch this arg1 arg2) st)
      as (r & st' & k & Hrun & Hk & Ha & Hc & Hm & Hr).
    exists r, st'. eexists. split; [exact Hrun|]. split; [exact Hc|].
    split; [exact Hm|].
    intros result ->. destruct Hr as [(Hr & ->)|(Hr & _)]; [|discriminate].
    injection Hr as ->. simpl. now rewrite take_ge by lia.
Qed.

(** The second commit fails: the counter holds the two writes of the first
    batch, the only one that was committed. *)
Lemma migratedDocCount_reflects_committed_batches_witness :
  exists r st' new,
    set exampleMigrator (Val (VNum 1)) None (initialState (failAt 1)) = (r, st')
    /\ committed st' = new
    /\ migratedDocCount st' = length (concat new)
    /\ migratedDocCount st' = 2.
Proof.
  destruct (migratedDocCount_reflects_committed_batches exampleMigrator
              (Val (VNum 1)) None Undefined Undefined (initialState (failAt 1)))
    as (_ & _ & (r & st' & new & Hset & Hc & Hm & _) & _).
  exists r, st', new. split; [exact Hset|]. split; [exact Hc|]. split; [exact Hm|].
  replace st'
    with (snd (set exampleMigrator (Val (VNum 1)) None (initialState (failAt 1))))
    by (now rewrite Hset).
  vm_compute. reflexivity.
Defined.

(** ** Predicates and hooks *)

Lemma withPredicate_Ok this predicate h l' h' :
  withPredicate this predicate h = Ok (l', h') ->
  l' = alloc h
  /\ h' = <[alloc h := mkBatchMigrator (traverser this) predicate noCallbacks]> h.
Proof.
  unfold withPredicate. intros H.
  apply new_BatchMigrator_Ok in H as (_ & -> & ->). auto.
Qed.

Lemma alloc_fresh (h : gmap loc BatchMigrator) : h !! alloc h = None.
Proof. unfold alloc. apply not_elem_of_dom, is_fresh. Qed.

(** The predicate of the migrator that [withPredicate] returns is the
    predicate it was given, whatever the predicate of the receiver. *)
Lemma withPredicate_predicate this predicate h l' h' :
  withPredicate this predicate h = Ok (l', h') ->
  h' !! l' = Some (mkBatchMigrator (traverser this) predicate noCallbacks).
Proof.
  intros H. apply withPredicate_Ok in H as (-> & ->). apply lookup_insert_eq.
Qed.

(** C2, at the failing input.  [withPredicate(rejectAll)] followed by
    [withPredicate(acceptAll)] yields a migrator that migrates a document
    although the first predicate rejects it: over the ten example documents
    it migrates all ten, where the conjunction of the two predicates accepts
    none. *)
Theorem withPredicate_replaces_earlier_predicate :
  exists l1 h1 m1 l2 h2 m2,
    withPredicate exampleMigrator rejectAll exampleHeap = Ok (l1, h1)
    /\ h1 !! l1 = Some m1
    /\ withPredicate m1 acceptAll h1 = Ok (l2, h2)
    /\ h2 !! l2 = Some m2
    /\ migrationPredicate m2 (exampleDoc 0) = true
    /\ rejectAll (exampleDoc 0) && acceptAll (exampleDoc 0) = false
    /\ fst (set m2 (Val (VNum 1)) None (initialState allCommit))
       = Ok (MigrationResult.mk 4 10 10).
Proof.
  destruct (withPredicate exampleMigrator rejectAll exampleHeap)
    as [[l1 h1]| |] eqn:H1; try (vm_compute in H1; discriminate).
  pose proof (withPredicate_predicate _ _ _ _ _ H1) as Hm1.
  set (m1 := mkBatchMigrator (traverser exampleMigrator) rejectAll noCallbacks) in *.
  destruct (withPredicate m1 acceptAll h1) as [[l2 h2]| |] eqn:H2;
    try (unfold withPredicate, new_BatchMigrator in H2; vm_compute in H2; discriminate).
  pose proof (withPredicate_predicate _ _ _ _ _ H2) as Hm2.
  exists l1, h1, m1, l2, h2. eexists.
  split; [reflexivity|]. split; [exact Hm1|]. split; [exact H2|].
  split; [exact Hm2|]. split; [reflexivity|]. split; [reflexivity|].
  vm_compute. reflexivity.
Qed.

(** C8. The migrator that [withPredicate] returns is a new instance built
    from the receiver's traverser and the new predicate only: it has no
    registered hook, whatever hooks the receiver has, and the receiver keeps
    its own.  A hook registered on the new instance afterwards does not
    reach the receiver. *)
Theorem withPredicate_carries_no_hooks
    (h : gmap loc BatchMigrator) (l : loc) (this : BatchMigrator)
    (predicate : MigrationPredicate) (l' : loc) (h' : gmap loc BatchMigrator) :
  h !! l = Some this ->
  withPredicate this predicate h = Ok (l', h') ->
  l' <> l
  /\ h' !! l = Some this
  /\ h' !! l' = Some (mkBatchMigrator (traverser this) predicate noCallbacks)
  /\ (forall callback,
        register_onBeforeBatchStart l' callback h' !! l = Some this
        /\ register_onAfterBatchComplete l' callback h' !! l = Some this
        /\ register_onBeforeBatchStart l' callback h' !! l'
           = Some (mkBatchMigrator (traverser this) predicate
                     (mkCallbacks (Some callback) None))).
Proof.
  intros Hl Hwith. apply withPredicate_Ok in Hwith as (-> & ->).
  assert (Hne : alloc h <> l).
  { intros Heq. rewrite <- Heq, alloc_fresh in Hl. discriminate. }
  split; [exact Hne|]. split; [now rewrite lookup_insert_ne|].
  split; [apply lookup_insert_eq|].
  intros callback. unfold register_onBeforeBatchStart, register_onAfterBatchComplete.
  rewrite !lookup_alter_ne by exact Hne.
  rewrite lookup_insert_ne by exact Hne.
  split; [exact Hl|]. split; [exact Hl|].
  rewrite lookup_alter_eq, lookup_insert_eq. reflexivity.
Qed.

(** [exampleMigrator] has both hooks registered; its [withPredicate] has
    none. *)
Lemma withPredicate_carries_no_hooks_witness :
  exists l' h' m',
    withPredicate exampleMigrator isPending exampleHeap = Ok (l', h')
    /\ h' !! l' = Some m'
    /\ registeredCallbacks m' = noCallbacks
    /\ registeredCallbacks exampleMigrator
       = mkCallbacks (Some "before") (Some "after").
Proof.
  destruct (withPredicate exampleMigrator isPending exampleHeap)
    as [[l' h']| |] eqn:Hwith; try (vm_compute in Hwith; discriminate).
  assert (Hl : exampleHeap !! 1%positive = Some exampleMigrator) by reflexivity.
  destruct (withPredicate_carries_no_hooks exampleHeap 1%positive exampleMigrator
              isPending l' h' Hl Hwith) as (_ & _ & Hnew & _).
  exists l', h'. eexists. split; [reflexivity|]. split; [exact Hnew|].
  split; reflexivity.
Defined.

(** The batch callback of [set] runs the before-batch hook first, then the
    writes of the batch, then the commit, then the after-batch hook. *)
Lemma set_callback_trace this dataOrGetData options snapshots batchIndex st :
  commitOutcome st (attempts st) = true ->
  trace (snd (set_callback this dataOrGetData options snapshots batchIndex st))
  = trace st
    ++ hookEvents OfMigrator BeforeBatchStart
         (onBeforeBatchStart (registeredCallbacks this)) snapshots batchIndex
    ++ map EvWrite (set_ops this dataOrGetData options snapshots)
    ++ [EvCommit (set_ops this dataOrGetData options snapshots) true]
    ++ hookEvents OfMigrator AfterBatchComplete
         (onAfterBatchComplete (registeredCallbacks this)) snapshots batchIndex.
Proof. intros Hok. rewrite set_callback_eq, Hok. reflexivity. Qed.

(** The batch callback of [update] runs the writes of the batch and the
    commit, and nothing else. *)
Lemma update_callback_trace this arg1 arg2 snapshots batchIndex st :
  trace (snd (update_callback this arg1 arg2 (argCount arg1 arg2) snapshots batchIndex st))
  = trace st
    ++ map EvWrite (update_ops this arg1 arg2 snapshots)
    ++ [EvCommit (update_ops this arg1 arg2 snapshots)
          (commitOutcome st (attempts st))].
Proof.
  rewrite update_callback_eq. now destruct (commitOutcome st (attempts st)).
Qed.

(** [update] does not look at the registered hooks. *)
Lemma update_ignores_registeredCallbacks this arg1 arg2 :
  update this arg1 arg2
  = update (mkBatchMigrator (traverser this) (migrationPredicate this) noCallbacks)
      arg1 arg2.
Proof. reflexivity. Qed.

(** C6, at the failing input.  [exampleMigrator] has a before-batch and an
    after-batch hook registered.  Its [set] calls each of them once for each
    of the four batches; its [update] calls neither. *)
Theorem update_skips_registered_hooks :
  List.filter isMigratorHook
    (trace (snd (update exampleMigrator (Val (VMap [("status", VStr "done")]))
                   Undefined (initialState allCommit))))
  = []
  /\ map (fun ev => match ev with
                    | EvHook _ point _ _ batchIndex => Some (point, batchIndex)
                    | _ => None
                    end)
       (List.filter isMigratorHook
          (trace (snd (set exampleMigrator (Val (VMap [("status", VStr "done")]))
                         None (initialState allCommit)))))
     = [Some (BeforeBatchStart, 0); Some (AfterBatchComplete, 0);
        Some (BeforeBatchStart, 1); Some (AfterBatchComplete, 1);
        Some (BeforeBatchStart, 2); Some (AfterBatchComplete, 2);
        Some (BeforeBatchStart, 3); Some (AfterBatchComplete, 3)].
Proof. split; vm_compute; reflexivity. Qed.

(** ** Configuration errors *)









(** ** The signatures of [update] *)

(** Every write that a traversal with the batch callback of [update] adds
    to a write batch is the write of the call's signature, for a document of
    one of the batches that the predicate accepts. *)
Lemma invoke_update_writes this arg1 arg2 batches :
  forall batchIndex docCount st op,
    In (EvWrite op)
       (trace (snd (invoke_batches (traverser this)
                      (update_callback this arg1 arg2 (argCount arg1 arg2))
                      batches batchIndex docCount st))) ->
    In (EvWrite op) (trace st)
    \/ exists snapshot,
         In snapshot (concat batches)
         /\ migrationPredicate this snapshot = true
         /\ op = update_write arg1 arg2 snapshot.
Proof.
  assert (Hhook : forall owner point hook snapshots batchIndex op,
             ~ In (EvWrite op) (hookEvents owner point hook snapshots batchIndex)).
  { intros owner point [callback|] snapshots batchIndex op; simpl;
      [intros [H|[]]; discriminate|tauto]. }
  assert (Hops : forall batch op,
             In (EvWrite op) (map EvWrite (update_ops this arg1 arg2 batch)) ->
             exists snapshot,
               In snapshot batch
               /\ migrationPredicate this snapshot = true
               /\ op = update_write arg1 arg2 snapshot).
  { intros batch op H. apply in_map_iff in H as (op' & [= ->] & H).
    unfold update_ops, migratable in H.
    apply in_map_iff in H as (snapshot & <- & H).
    apply List.filter_In in H as (Hin & Haccepted). eauto. }
  induction batches as [|batch rest IH]; intros batchIndex docCount st op H.
  - left. exact H.
  - simpl in H. unfold bind in H. rewrite runHook_log in H.
    match type of H with
    | context [update_callback _ _ _ _ _ _ ?s] =>
      pose proof (update_callback_eq this arg1 arg2 batch batchIndex s) as Hcb
    end.
    simpl in Hcb. rewrite Hcb in H. clear Hcb.
    assert (Hhere : forall tail,
               In (EvWrite op)
                  ((trace st
                    ++ hookEvents OfTraverser BeforeBatchStart
                         (onBeforeBatchStart (traverserCallbacks (traverser this)))
                         batch batchIndex)
                   ++ map EvWrite (update_ops this arg1 arg2 batch) ++ tail) ->
               (forall op', ~ In (EvWrite op') tail) ->
               In (EvWrite op) (trace st)
               \/ exists snapshot,
                    In snapshot (concat (batch :: rest))
                    /\ migrationPredicate this snapshot = true
                    /\ op = update_write arg1 arg2 snapshot).
    { intros tail Hin Htail. rewrite !in_app_iff in Hin.
      destruct Hin as [[Hin|Hin]|[Hin|Hin]].
      - now left.
      - now apply Hhook in Hin.
      - right. apply Hops in Hin as (snapshot & Hin & Haccepted & ->).
        exists snapshot. simpl. rewrite in_app_iff. auto.
      - now apply Htail in Hin. }
    destruct (commitOutcome st (attempts st)).
    + rewrite runHook_log in H. apply IH in H. destruct H as [H|H].
      * unfold log in H. simpl in H. rewrite in_app_iff in H.
        destruct H as [H|H]; [|now apply Hhook in H].
        apply Hhere in H; [exact H|].
        intros op' [Heq|[]]. discriminate.
      * right. destruct H as (snapshot & Hin & Haccepted & ->).
        exists snapshot. simpl. rewrite in_app_iff. auto.
    + simpl in H. apply Hhere in H; [exact H|].
      intros op' [Heq|[]]. discriminate.
Qed.

(** What a call of [update] issues, for the write [write] that its
    signature selects: every write it adds to a write batch is
    [write snapshot] for an accepted document of the traversal, and when all
    its commits succeed it commits these writes batch by batch. *)
Lemma update_issues_as this arg1 arg2 write st :
  (forall snapshot, update_write arg1 arg2 snapshot = write snapshot) ->
  (forall op,
      In (EvWrite op) (trace (snd (update this arg1 arg2 st))) ->
      In (EvWrite op) (trace st)
      \/ exists snapshot,
           In snapshot (concat (pages (traverser this)))
           /\ migrationPredicate this snapshot = true
           /\ op = write snapshot)
  /\ ((forall j, j < length (pages (traverser this)) ->
                 commitOutcome st (attempts st + j) = true) ->
      committed (snd (update this arg1 arg2 st))
      = committed st
        ++ map (fun batch =>
                  map write (List.filter (migrationPredicate this) batch))
             (pages (traverser this))).
Proof.
  intros Hwrite. split.
  - intros op H. rewrite update_runMigration in H.
    unfold runMigration, bind in H. simpl in H. rewrite traverse_invoke in H.
    match type of H with
    | context [invoke_batches _ _ _ _ _ ?s] =>
      pose proof (invoke_update_writes this arg1 arg2 (pages (traverser this))
                    0 0 s op) as Hwrites;
      destruct (invoke_batches (traverser this)
                  (update_callback this arg1 arg2 (argCount arg1 arg2))
                  (pages (traverser this)) 0 0 s) as [[r|e|] st'] eqn:Hrun
    end; simpl in H, Hwrites;
      (destruct (Hwrites H) as [Hold|(snapshot & Hin & Haccepted & ->)];
       [now left|right; exists snapshot; rewrite <- Hwrite; auto]).
  - intros Hok. rewrite update_runMigration.
    destruct (runMigration_ok (traverser this) _ _
                (update_commits_batch this arg1 arg2) st Hok)
      as (st' & -> & _ & _ & Hcommitted).
    simpl. rewrite Hcommitted. f_equal. apply map_ext. intros batch.
    unfold update_ops, migratable. apply map_ext. exact Hwrite.
Qed.

(** C9. A call [update(field, undefined)] counts one argument and runs as
    the call with the single-argument signature: for every document it
    migrates it issues [writeBatch.update(ref, field)], with [field] in the
    place of the update data, and no other write; these are the writes it
    commits, batch by batch, up to the first commit that fails.  With a
    defined value the call counts two arguments and commits
    [writeBatch.update(ref, field, value)]. *)
Theorem update_with_undefined_value_is_single_argument
    (this : BatchMigrator) (field : Value) (st : State) :
  let batches := pages (traverser this) in
  let accepted := List.filter (migrationPredicate this) in
  let single snapshot := OpUpdateData (ref snapshot) (Val field) in
  argCount (Val field) Undefined = 1
  /\ (exists r st' k,
        update this (Val field) Undefined st = (r, st')
        /\ k <= length batches
        /\ committed st'
           = committed st
             ++ map (fun batch => map single (accepted batch)) (take k batches)
        /\ (k = length batches
            /\ r = Ok (MigrationResult.mk (length batches) (length (concat batches))
                         (length (accepted (concat batches))))
            \/ k < length batches /\ r = Throw CommitError)
        /\ forall op,
             In (EvWrite op) (trace st') ->
             In (EvWrite op) (trace st)
             \/ exists snapshot,
                  In snapshot (concat batches)
                  /\ migrationPredicate this snapshot = true
                  /\ op = single snapshot)
  /\ ((forall j, j < length batches -> commitOutcome st (attempts st + j) = true) ->
      committed (snd (update this (Val field) Undefined st))
      = committed st ++ map (fun batch => map single (accepted batch)) batches)
  /\ (forall value,
        argCount (Val field) (Val value) = 2
        /\ ((forall j, j < length batches ->
                       commitOutcome st (attempts st + j) = true) ->
            committed (snd (update this (Val field) (Val value) st))
            = committed st
              ++ map (fun batch =>
                        map (fun snapshot =>
                               OpUpdateField (ref snapshot) (Val field) (Val value))
                          (accepted batch))
                   batches)).
Proof.
  intros batches accepted single.
  destruct (update_issues_as this (Val field) Undefined single st
              ltac:(reflexivity)) as (Hissued & Hcommitted).
  split; [reflexivity|]. split; [|split; [exact Hcommitted|]].
  - pose proof (update_runMigration this (Val field) Undefined) as Hrun.
    destruct (runMigration_any (traverser this) _ _
                (update_commits_batch this (Val field) Undefined) st)
      as (r & st' & k & Heq & Hk & _ & Hc & _ & Hr).
    rewrite <- Hrun in Heq. exists r, st', k.
    split; [exact Heq|]. split; [exact Hk|]. split; [|split].
    + rewrite Hc. reflexivity.
    + destruct Hr as [(-> & ->)|(-> & Hlt)]; [left|right; auto].
      split; [reflexivity|]. do 2 f_equal.
      apply (length_concat_map_ops single this).
    + intros op H. apply Hissued. rewrite Heq. exact H.
  - intros value. split; [reflexivity|].
    apply (update_issues_as this (Val field) (Val value)
             (fun snapshot => OpUpdateField (ref snapshot) (Val field) (Val value))).
    reflexivity.
Qed.

(** [update("status", undefined)] over the example documents, every commit
    succeeding: each write batch treats the string as update data. *)
Lemma update_with_undefined_value_is_single_argument_witness :
  committed (snd (update exampleMigrator (Val (VStr "status")) Undefined
                    (initialState allCommit)))
  = [[OpUpdateData "0" (Val (VStr "status")); OpUpdateData "2" (Val (VStr "status"))];
     [OpUpdateData "4" (Val (VStr "status"))];
     [OpUpdateData "6" (Val (VStr "status")); OpUpdateData "8" (Val (VStr "status"))];
     []].
Proof.
  destruct (update_with_undefined_value_is_single_argument exampleMigrator
              (VStr "status") (initialState allCommit)) as (_ & _ & Hcommitted & _).
  rewrite Hcommitted by reflexivity. vm_compute. reflexivity.
Defined.

(** * Further properties of the code *)

(** ** The data [set] writes *)

Lemma set_callback_committed this dataOrGetData options snapshots batchIndex st :
  commitOutcome st (attempts st) = true ->
  committed (snd (set_callback this dataOrGetData options snapshots batchIndex st))
  = committed st ++ [set_ops this dataOrGetData options snapshots].
Proof.
  intros Hok.
  pose proof (set_callback_eq this dataOrGetData options snapshots batchIndex st) as H.
  simpl in H. rewrite Hok in H. now rewrite H.
Qed.

(** X1. When its commit succeeds, the batch callback of [set] commits, for
    the accepted documents of the batch in order, [set(ref, data)] with the
    literal data for every document, or with [getData(snapshot)] computed
    from the document's own snapshot when a getter is given; the options are
    handed on as they were given, also when there are none. *)
Theorem set_writes_literal_or_derived_data
    (this : BatchMigrator) (options : option SetOptions)
    (snapshots : list QueryDocumentSnapshot) (batchIndex : nat) (st : State) :
  commitOutcome st (attempts st) = true ->
  (forall getData,
      committed (snd (set_callback this (Fun getData) options snapshots batchIndex st))
      = committed st
        ++ [map (fun snapshot =>
                   OpSet (ref snapshot) (Val (getData snapshot)) options)
              (List.filter (migrationPredicate this) snapshots)])
  /\ (forall data,
        committed (snd (set_callback this (Val data) options snapshots batchIndex st))
        = committed st
          ++ [map (fun snapshot => OpSet (ref snapshot) (Val data) options)
                (List.filter (migrationPredicate this) snapshots)]).
Proof.
  intros Hok. split; intros; now rewrite set_callback_committed.
Qed.

(** A getter that copies the document's own data: each pending document of
    the example batch is set with its own data, merged. *)
Lemma set_writes_literal_or_derived_data_witness :
  committed (snd (set_callback exampleMigrator (Fun data)
                    (Some (mkSetOptions (Some true) None)) exampleBatch 0
                    (initialState allCommit)))
  = [[OpSet "2" (Val (VMap [("status", VStr "pending")]))
        (Some (mkSetOptions (Some true) None));
      OpSet "4" (Val (VMap [("status", VStr "pending")]))
        (Some (mkSetOptions (Some true) None))]].
Proof.
  destruct (set_writes_literal_or_derived_data exampleMigrator
              (Some (mkSetOptions (Some true) None)) exampleBatch 0
              (initialState allCommit) eq_refl) as (Hgetter & _).
  rewrite Hgetter. reflexivity.
Defined.

(** ** The signatures of [update], all cases *)

(** X2. Which write a call of [update] issues depends on how many of its
    two arguments are defined, except that a function as first argument
    always selects the getter signature.  With an undefined first argument
    and a defined second one the count is one: the call runs as
    [update(data)] with undefined data, and the second argument is dropped.
    With both undefined the count is zero and the field/value write is
    issued with both undefined.  A defined first argument that is not a
    function, with any defined second argument (a function too), gives the
    field/value write.  In each case the call adds no other write to a write
    batch, whatever its commits do, and commits these writes batch by batch
    when its commits succeed. *)
Theorem update_signature_follows_defined_arguments
    (this : BatchMigrator) (st : State) :
  let batches := pages (traverser this) in
  let issues arg1 arg2 write :=
    (forall op,
        In (EvWrite op) (trace (snd (update this arg1 arg2 st))) ->
        In (EvWrite op) (trace st)
        \/ exists snapshot,
             In snapshot (concat batches)
             /\ migrationPredicate this snapshot = true
             /\ op = write snapshot)
    /\ ((forall j, j < length batches -> commitOutcome st (attempts st + j) = true) ->
        committed (snd (update this arg1 arg2 st))
        = committed st
          ++ map (fun batch =>
                    map write (List.filter (migrationPredicate this) batch))
               batches) in
  (forall arg2,
      is_defined arg2 = true ->
      issues Undefined arg2 (fun snapshot => OpUpdateData (ref snapshot) Undefined))
  /\ issues Undefined Undefined
       (fun snapshot => OpUpdateField (ref snapshot) Undefined Undefined)
  /\ (forall field arg2,
        is_defined arg2 = true ->
        issues (Val field) arg2
          (fun snapshot => OpUpdateField (ref snapshot) (Val field) arg2))
  /\ (forall getUpdateData arg2,
        issues (Fun getUpdateData) arg2
          (fun snapshot => OpUpdateData (ref snapshot) (Val (getUpdateData snapshot)))).
Proof.
  intros batches issues. unfold issues, batches.
  split; [|split; [|split]]; intros; apply update_issues_as; intros snapshot;
    unfold update_write; try reflexivity;
    destruct arg2; try discriminate; reflexivity.
Qed.

(** [update(undefined, 7)] over the example documents, every commit
    succeeding: the pending documents get [update(ref, undefined)]. *)
Lemma update_signature_follows_defined_arguments_witness :
  committed (snd (update exampleMigrator Undefined (Val (VNum 7))
                    (initialState allCommit)))
  = [[OpUpdateData "0" Undefined; OpUpdateData "2" Undefined];
     [OpUpdateData "4" Undefined];
     [OpUpdateData "6" Undefined; OpUpdateData "8" Undefined];
     []].
Proof.
  destruct (update_signature_follows_defined_arguments exampleMigrator
              (initialState allCommit)) as (Hundefined & _).
  destruct (Hundefined (Val (VNum 7)) eq_refl) as (_ & Hcommitted).
  rewrite Hcommitted by reflexivity. vm_compute. reflexivity.
Defined.

Lemma invoke_batches_ext t callback1 callback2 :
  (forall batch batchIndex st,
      callback1 batch batchIndex st = callback2 batch batchIndex st) ->
  forall batches batchIndex docCount st,
    invoke_batches t callback1 batches batchIndex docCount st
    = invoke_batches t callback2 batches batchIndex docCount st.
Proof.
  intros Hext. induction batches as [|batch rest IH]; intros batchIndex docCount st;
    [reflexivity|].
  simpl. unfold bind.
  destruct (runHook OfTraverser BeforeBatchStart _ batch batchIndex st)
    as [[[]|e|] st1]; try reflexivity.
  rewrite Hext.
  destruct (callback2 batch batchIndex st1) as [[[]|e|] st2]; try reflexivity.
  destruct (runHook OfTraverser AfterBatchComplete _ batch batchIndex st2)
    as [[[]|e|] st3]; try reflexivity.
  apply IH.
Qed.

(** X3. When the first argument of [update] is a function, the second
    argument plays no part: the call returns the same result and leaves the
    same state as the call with the getter alone. *)
Theorem update_getter_ignores_second_argument
    (this : BatchMigrator) (getUpdateData : QueryDocumentSnapshot -> Value)
    (arg2 : Js) (st : State) :
  update this (Fun getUpdateData) arg2 st
  = update this (Fun getUpdateData) Undefined st.
Proof.
  rewrite !update_runMigration. unfold runMigration, bind. simpl.
  rewrite !traverse_invoke.
  rewrite (invoke_batches_ext (traverser this)
             (update_callback this (Fun getUpdateData) arg2
                (argCount (Fun getUpdateData) arg2))
             (update_callback this (Fun getUpdateData) Undefined
                (argCount (Fun getUpdateData) Undefined))); [reflexivity|].
  intros batch batchIndex s.
  pose proof (update_callback_eq this (Fun getUpdateData) arg2 batch batchIndex s) as H1.
  pose proof (update_callback_eq this (Fun getUpdateData) Undefined batch batchIndex s)
    as H2.
  simpl in H1, H2. rewrite H1, H2. reflexivity.
Qed.

(** ** Batches without a document to migrate *)

Lemma filter_none {A : Type} (p : A -> bool) (l : list A) :
  (forall x, In x l -> p x = false) -> List.filter p l = [].
Proof.
  induction l as [|x rest IH]; intros H; [reflexivity|].
  simpl. rewrite (H x) by (now left). apply IH. intros y Hy. apply H. now right.
Qed.

(** X4. When the predicate accepts no document of a batch (an empty batch
    included), the batch callbacks of [set] and [update] still commit a
    write batch, an empty one: a commit is attempted, its failure still
    rejects with the commit error, and on success the empty write batch is
    committed, [migratedDocCount] stays as it was and [set] calls its hooks
    around the commit. *)
Theorem batch_without_match_still_commits
    (this : BatchMigrator) (dataOrGetData : Js) (options : option SetOptions)
    (arg1 arg2 : Js)
    (snapshots : list QueryDocumentSnapshot) (batchIndex : nat) (st : State) :
  (forall snapshot, In snapshot snapshots -> migrationPredicate this snapshot = false) ->
  set_callback this dataOrGetData options snapshots batchIndex st
  = (if commitOutcome st (attempts st)
     then (Ok tt,
           mkState (committed st ++ [[]]) (S (attempts st)) (commitOutcome st)
             (trace st
              ++ hookEvents OfMigrator BeforeBatchStart
                   (onBeforeBatchStart (registeredCallbacks this)) snapshots batchIndex
              ++ [EvCommit [] true]
              ++ hookEvents OfMigrator AfterBatchComplete
                   (onAfterBatchComplete (registeredCallbacks this)) snapshots
                   batchIndex)
             (migratedDocCount st))
     else (Throw CommitError,
           mkState (committed st) (S (attempts st)) (commitOutcome st)
             (trace st
              ++ hookEvents OfMigrator BeforeBatchStart
                   (onBeforeBatchStart (registeredCallbacks this)) snapshots batchIndex
              ++ [EvCommit [] false])
             (migratedDocCount st)))
  /\ update_callback this arg1 arg2 (argCount arg1 arg2) snapshots batchIndex st
     = (if commitOutcome st (attempts st)
        then (Ok tt,
              mkState (committed st ++ [[]]) (S (attempts st)) (commitOutcome st)
                (trace st ++ [EvCommit [] true]) (migratedDocCount st))
        else (Throw CommitError,
              mkState (committed st) (S (attempts st)) (commitOutcome st)
                (trace st ++ [EvCommit [] false]) (migratedDocCount st))).
Proof.
  intros Hnone.
  pose proof (set_callback_eq this dataOrGetData options snapshots batchIndex st) as Hset.
  pose proof (update_callback_eq this arg1 arg2 snapshots batchIndex st) as Hupd.
  simpl in Hset, Hupd. unfold set_ops, update_ops, migratable in Hset, Hupd.
  rewrite (filter_none _ _ Hnone) in Hset, Hupd. simpl in Hset, Hupd.
  rewrite Nat.add_0_r in Hset, Hupd. split; assumption.
Qed.

(** No document of the example batch passes [rejectAll]: one empty write
    batch is committed and nothing is counted. *)
Lemma batch_without_match_still_commits_witness :
  set_callback (mkBatchMigrator exampleTraverser rejectAll noCallbacks)
    (Val (VNum 1)) None exampleBatch 0 (initialState allCommit)
  = (Ok tt, mkState [[]] 1 allCommit [EvCommit [] true] 0).
Proof.
  destruct (batch_without_match_still_commits
              (mkBatchMigrator exampleTraverser rejectAll noCallbacks)
              (Val (VNum 1)) None Undefined Undefined exampleBatch 0
              (initialState allCommit)) as (Hset & _).
  - intros snapshot _. reflexivity.
  - rewrite Hset. reflexivity.
Defined.

(** ** Hooks and the commit *)

(** X5. The batch callback of [set] calls the before-batch hook before
    anything else, then adds the writes, then commits; the after-batch hook
    is called after a commit that succeeded and is not called when the
    commit failed. *)
Theorem set_calls_after_hook_only_after_successful_commit
    (this : BatchMigrator) (dataOrGetData : Js) (options : option SetOptions)
    (snapshots : list QueryDocumentSnapshot) (batchIndex : nat) (st : State) :
  let ok := commitOutcome st (attempts st) in
  let ops :=
    map (fun snapshot =>
           OpSet (ref snapshot)
             (match dataOrGetData with
              | Fun getData => Val (getData snapshot)
              | data => data
              end) options)
      (List.filter (migrationPredicate this) snapshots) in
  trace (snd (set_callback this dataOrGetData options snapshots batchIndex st))
  = trace st
    ++ match onBeforeBatchStart (registeredCallbacks this) with
       | Some hook => [EvHook OfMigrator BeforeBatchStart hook snapshots batchIndex]
       | None => []
       end
    ++ map EvWrite ops
    ++ [EvCommit ops ok]
    ++ match onAfterBatchComplete (registeredCallbacks this) with
       | Some hook =>
         if ok
         then [EvHook OfMigrator AfterBatchComplete hook snapshots batchIndex]
         else []
       | None => []
       end.
Proof.
  intros ok ops.
  pose proof (set_callback_eq this dataOrGetData options snapshots batchIndex st) as H.
  simpl in H. fold ok in H. rewrite H.
  assert (Hops : set_ops this dataOrGetData options snapshots = ops).
  { unfold set_ops, ops, migratable. apply map_ext. intros snapshot.
    unfold set_write. now destruct dataOrGetData. }
  rewrite Hops. unfold hookEvents.
  destruct ok; simpl; [now destruct (onAfterBatchComplete (registeredCallbacks this))|].
  now destruct (onAfterBatchComplete (registeredCallbacks this)).
Qed.

(** ** The documents a write batch addresses *)

Lemma NoDup_map_filter {A B : Type} (f : A -> B) (p : A -> bool) (l : list A) :
  List.NoDup (map f l) -> List.NoDup (map f (List.filter p l)).
Proof.
  induction l as [|x rest IH]; intros Hnd; [constructor|].
  simpl in Hnd. apply List.NoDup_cons_iff in Hnd as (Hx & Hrest).
  simpl. destruct (p x); [|now apply IH].
  simpl. apply List.NoDup_cons_iff. split; [|now apply IH].
  intros Hin. apply Hx. apply in_map_iff in Hin as (y & Hy & Hin).
  apply filter_In in Hin as (Hin & _). apply in_map_iff. eauto.
Qed.

(** X6. The write batch that the [forEach] of [set] and of [update] builds
    for a batch whose documents are distinct holds one write per accepted
    document and nothing else: no document is addressed twice, every write
    addresses a document of the batch that the predicate accepts, every
    accepted document is addressed, and [migratableDocCount] is the number
    of writes, at most the size of the batch. *)
Theorem write_batch_addresses_each_accepted_document_once
    (this : BatchMigrator) (dataOrGetData : Js) (options : option SetOptions)
    (arg1 arg2 : Js) (snapshots : list QueryDocumentSnapshot) (st : State) :
  List.NoDup (map ref snapshots) ->
  let addressed_once (r : Outcome (WriteBatch * nat) * State) :=
    exists ops st',
      r = (Ok (ops, length ops), st')
      /\ length ops <= length snapshots
      /\ List.NoDup (map target ops)
      /\ forall document,
           In document (map target ops)
           <-> exists snapshot,
                 In snapshot snapshots
                 /\ migrationPredicate this snapshot = true
                 /\ ref snapshot = document in
  addressed_once (forEach (set_body this dataOrGetData options) snapshots ([], 0) st)
  /\ addressed_once
       (forEach (update_body this arg1 arg2 (argCount arg1 arg2)) snapshots ([], 0) st).
Proof.
  intros Hnd addressed_once.
  assert (Hgen : forall ops,
             map target ops = map ref (migratable this snapshots) ->
             length ops <= length snapshots
             /\ List.NoDup (map target ops)
             /\ forall document,
                  In document (map target ops)
                  <-> exists snapshot,
                        In snapshot snapshots
                        /\ migrationPredicate this snapshot = true
                        /\ ref snapshot = document).
  { intros ops Hops. split; [|split].
    - rewrite <- (length_map target ops), Hops, length_map.
      unfold migratable. apply List.filter_length_le.
    - rewrite Hops. unfold migratable. now apply NoDup_map_filter.
    - intros document. rewrite Hops. unfold migratable. rewrite in_map_iff.
      split; intros (snapshot & H1 & H2).
      + apply filter_In in H2 as (Hin & Hp). eauto.
      + destruct H2 as (Hp & <-). exists snapshot. split; [reflexivity|].
        apply filter_In. auto. }
  split.
  - rewrite (forEach_filter _ _ _ (set_body_step this dataOrGetData options)).
    simpl. eexists. eexists. split.
    + rewrite <- (length_map (set_write dataOrGetData options)). reflexivity.
    + apply Hgen. apply target_set_ops.
  - rewrite (forEach_filter _ _ _ (update_body_step this arg1 arg2)).
    simpl. eexists. eexists. split.
    + rewrite <- (length_map (update_write arg1 arg2)). reflexivity.
    + apply Hgen. apply target_update_ops.
Qed.

(** The five documents of the example batch are distinct: the write batch
    of [set] for the pending ones holds two writes. *)
Lemma write_batch_addresses_each_accepted_document_once_witness :
  exists ops st',
    forEach (set_body exampleMigrator (Val (VNum 1)) None) exampleBatch ([], 0)
      (initialState allCommit)
    = (Ok (ops, length ops), st')
    /\ length ops <= 5
    /\ List.NoDup (map target ops).
Proof.
  assert (Hnd : List.NoDup (map ref exampleBatch)).
  { vm_compute. repeat constructor; simpl; intuition discriminate. }
  destruct (write_batch_addresses_each_accepted_document_once exampleMigrator
              (Val (VNum 1)) None Undefined Undefined exampleBatch
              (initialState allCommit) Hnd)
    as ((ops & st' & Heq & Hlen & Hops & _) & _).
  exists ops, st'. split; [exact Heq|]. split; [exact Hlen|exact Hops].
Defined.

(** ** Reads and writes of a migration *)

Lemma filter_length_all {A : Type} (p : A -> bool) (l : list A) :
  length (List.filter p l) = length l <-> forall x, In x l -> p x = true.
Proof.
  induction l as [|x rest IH]; [simpl; intuition|].
  simpl. pose proof (List.filter_length_le p rest) as Hle.
  destruct (p x) eqn:Hp; simpl.
  - split.
    + intros Hlen y [<-|Hy]; [assumption|]. apply IH; [lia|assumption].
    + intros Hall. f_equal. apply IH. intros y Hy. apply Hall. now right.
  - split; [lia|]. intros Hall. rewrite (Hall x) in Hp by (now left). discriminate.
Qed.

(** X7. The result of a [set] or [update] call that completes never reports
    more migrated than traversed documents (K <= N in the documentation of
    the two methods), and reports as many exactly when the predicate accepts
    every document the traversal visited. *)
Theorem migrated_at_most_traversed
    (this : BatchMigrator) (dataOrGetData : Js) (options : option SetOptions)
    (arg1 arg2 : Js) (st : State) :
  let visited := concat (pages (traverser this)) in
  (forall r st',
      set this dataOrGetData options st = (Ok r, st') ->
      MigrationResult.migratedDocCount r <= MigrationResult.traversedDocCount r
      /\ (MigrationResult.migratedDocCount r = MigrationResult.traversedDocCount r
          <-> forall snapshot,
                In snapshot visited -> migrationPredicate this snapshot = true))
  /\ (forall r st',
        update this arg1 arg2 st = (Ok r, st') ->
        MigrationResult.migratedDocCount r <= MigrationResult.traversedDocCount r
        /\ (MigrationResult.migratedDocCount r = MigrationResult.traversedDocCount r
            <-> forall snapshot,
                  In snapshot visited -> migrationPredicate this snapshot = true)).
Proof.
  intros visited.
  assert (Hgen : forall callback opsOf write r st',
             commits_batch callback opsOf ->
             opsOf = (fun batch => map write (migratable this batch)) ->
             runMigration (traverser this) callback st = (Ok r, st') ->
             MigrationResult.migratedDocCount r <= MigrationResult.traversedDocCount r
             /\ (MigrationResult.migratedDocCount r
                 = MigrationResult.traversedDocCount r
                 <-> forall snapshot,
                       In snapshot visited ->
                       migrationPredicate this snapshot = true)).
  { intros callback opsOf write r st' Hcb -> Hrun.
    destruct (runMigration_any (traverser this) _ _ Hcb st)
      as (r0 & st0 & k & Hrun0 & _ & _ & _ & _ & Hr).
    rewrite Hrun0 in Hrun. injection Hrun as -> ->.
    destruct Hr as [(Hr & _)|(Hr & _)]; [|discriminate].
    injection Hr as ->. simpl.
    rewrite length_concat_map_ops. unfold migratable. split.
    - apply List.filter_length_le.
    - apply filter_length_all. }
  split; intros r st' Hrun.
  - rewrite set_runMigration in Hrun.
    exact (Hgen _ _ (set_write dataOrGetData options) r st'
             (set_commits_batch this dataOrGetData options) eq_refl Hrun).
  - rewrite update_runMigration in Hrun.
    exact (Hgen _ _ (update_write arg1 arg2) r st'
             (update_commits_batch this arg1 arg2) eq_refl Hrun).
Qed.

(** ** Populating a collection *)

Lemma promise_all_map (outcome : nat -> bool) (slots : list nat) :
  promise_all (map (fun i => if outcome i then Some i else None) slots)
  = if forallb outcome slots then Some slots else None.
Proof.
  induction slots as [|i rest IH]; [reflexivity|].
  simpl. destruct (outcome i); [|reflexivity].
  rewrite IH. simpl. now destruct (forallb outcome rest).
Qed.

(** What the [count] calls of the arrow function do, from call number
    [calls] of the getter on. *)
Lemma populate_promises_eq dataOrGetData :
  forall count calls c,
    populate_promises count dataOrGetData calls c
    = (map (fun i => if addOutcome c i then Some i else None)
         (seq (addAttempts c) count),
       match dataOrGetData with
       | Getter _ => calls + count
       | Literal _ => calls
       end,
       mkCollection
         (documents c
          ++ map (fun i => (i, slotData dataOrGetData (calls + (i - addAttempts c))))
               (List.filter (addOutcome c) (seq (addAttempts c) count)))
         (addAttempts c + count) (addOutcome c)).
Proof.
  induction count as [|count IH]; intros calls c.
  - destruct c, dataOrGetData; simpl; now rewrite app_nil_r, !Nat.add_0_r.
  - cbn [populate_promises].
    assert (Hshift : forall calls1,
               calls1 = match dataOrGetData with
                        | Getter _ => S calls
                        | Literal _ => calls
                        end ->
               map (fun i => (i, slotData dataOrGetData
                                   (calls1 + (i - S (addAttempts c)))))
                 (List.filter (addOutcome c) (seq (S (addAttempts c)) count))
               = map (fun i => (i, slotData dataOrGetData
                                     (calls + (i - addAttempts c))))
                   (List.filter (addOutcome c) (seq (S (addAttempts c)) count))).
    { intros calls1 ->. apply map_ext_in. intros i Hi.
      apply filter_In in Hi as (Hi & _). apply in_seq in Hi.
      destruct dataOrGetData; simpl; [reflexivity|].
      do 2 f_equal. lia. }
    unfold collection_add.
    destruct dataOrGetData as [data|getData];
      destruct (addOutcome c (addAttempts c)) eqn:Hok;
      rewrite IH; cbn [addAttempts addOutcome documents seq map List.filter];
      rewrite Hok; cbn [map]; rewrite ?(Hshift _ eq_refl);
      rewrite ?Nat.sub_diag, ?Nat.add_0_r, <- ?app_assoc.
    all: now rewrite ?Nat.add_succ_r.
Qed.

(** X8. For a length that [new Array] accepts, [populateCollection] issues
    one [add] per slot whatever the earlier ones did, and calls a getter
    once per slot.  Every [add] that succeeds leaves its document, with the
    data of its slot, in the collection; a failed [add] rejects the result
    but neither stops nor undoes the others.  The result resolves, to the
    references of the new documents in slot order, exactly when every [add]
    succeeds. *)
Theorem populateCollection_issues_every_add
    (c : CollectionReference) (dataOrGetData : DataOrGetData) (docCount : Z) :
  (0 <= docCount <= 2 ^ 32 - 1)%Z ->
  let count := Z.to_nat docCount in
  let slots := seq (addAttempts c) count in
  populateCollection c dataOrGetData docCount
  = (if forallb (addOutcome c) slots then Resolved slots else Rejected AddError,
     match dataOrGetData with
     | Getter _ => count
     | Literal _ => 0
     end,
     mkCollection
       (documents c
        ++ map (fun i => (i, slotData dataOrGetData (i - addAttempts c)))
             (List.filter (addOutcome c) slots))
       (addAttempts c + count) (addOutcome c)).
Proof.
  intros Hrange count slots. unfold populateCollection.
  replace ((docCount <? 0) || (2 ^ 32 - 1 <? docCount))%Z with false
    by (symmetry; apply orb_false_iff; split; [apply Z.ltb_ge|apply Z.ltb_ge]; lia).
  fold count. rewrite populate_promises_eq, promise_all_map. fold slots.
  simpl. now destruct (forallb (addOutcome c) slots), dataOrGetData.
Qed.

(** Three documents from a getter, the second [add] failing: the call
    rejects, the getter was called three times, and the first and the third
    document are in the collection. *)
Lemma populateCollection_issues_every_add_witness :
  populateCollection (emptyCollection (failAt 1))
    (Getter (fun k => VNum (Z.of_nat k))) 3
  = (Rejected AddError, 3,
     mkCollection [(0, VNum 0); (2, VNum 2)] 3 (failAt 1)).
Proof.
  rewrite (populateCollection_issues_every_add (emptyCollection (failAt 1))
             (Getter (fun k => VNum (Z.of_nat k))) 3); [reflexivity|].
  split; [lia|reflexivity || (vm_compute; discriminate)].
Defined.

(** X9. When every [add] succeeds, [populateCollection] resolves to
    [docCount] references, all different, which are the ids of the documents
    it added; the documents follow those the collection already had, in slot
    order, each with the literal data or with what the getter returned on
    the call for its slot. *)
Theorem populateCollection_returns_one_reference_per_document
    (c : CollectionReference) (dataOrGetData : DataOrGetData) (docCount : Z) :
  (0 <= docCount <= 2 ^ 32 - 1)%Z ->
  (forall i, addAttempts c <= i < addAttempts c + Z.to_nat docCount ->
             addOutcome c i = true) ->
  exists refs calls c',
    populateCollection c dataOrGetData docCount = (Resolved refs, calls, c')
    /\ length refs = Z.to_nat docCount
    /\ List.NoDup refs
    /\ documents c'
       = documents c
         ++ map (fun i => (i, slotData dataOrGetData (i - addAttempts c))) refs
    /\ map fst (documents c') = map fst (documents c) ++ refs.
Proof.
  intros Hrange Hok.
  rewrite (populateCollection_issues_every_add c dataOrGetData docCount Hrange).
  set (slots := seq (addAttempts c) (Z.to_nat docCount)).
  assert (Hall : forallb (addOutcome c) slots = true).
  { apply forallb_forall. intros i Hi. apply in_seq in Hi. now apply Hok. }
  assert (Hfilter : List.filter (addOutcome c) slots = slots).
  { apply forallb_filter_id in Hall. exact Hall. }
  rewrite Hall, Hfilter. eexists. eexists. eexists.
  split; [reflexivity|]. split; [apply length_seq|]. split; [apply seq_NoDup|].
  split; [reflexivity|].
  simpl. rewrite map_app, map_map. simpl. now rewrite map_id.
Qed.

(** Three documents with the same literal data into an empty collection. *)
Lemma populateCollection_returns_one_reference_per_document_witness :
  exists refs calls c',
    populateCollection (emptyCollection allCommit) (Literal VNull) 3
    = (Resolved refs, calls, c')
    /\ length refs = 3
    /\ documents c' = map (fun i => (i, VNull)) refs.
Proof.
  destruct (populateCollection_returns_one_reference_per_document
              (emptyCollection allCommit) (Literal VNull) 3)
    as (refs & calls & c' & Heq & Hlen & _ & Hdocs & _).
  - split; [lia|]. vm_compute. discriminate.
  - intros i _. reflexivity.
  - exists refs, calls, c'. split; [exact Heq|]. split; [exact Hlen|exact Hdocs].
Defined.
